(** * Link checker: a shallow embedding of [scripts/link-checker.py]

    The development follows the script top-down: Python values and
    exceptions, the string operations the script calls, the parts of
    [urllib.parse] and [re] it relies on, and then the [LinkChecker] class
    itself ([is_valid_url], [extract_links], [check_url], [crawl],
    [generate_report], [print_summary]) and [main].  Everything that lives
    outside the interpreter (the HTTP session, the clock, the iteration
    order of a [set]) is gathered in one record, [Runtime], over which the
    code is parameterised; what [main] needs besides is in [Host].  The
    progress lines that [crawl] and [check_url] print are left out; the
    lines of [print_summary] and [main] are kept.

    Strings are Rocq [string]s read as sequences of code points below 256;
    integers are [Z]; floats are the binary64 numbers of [PrimFloat].  A
    call that may raise returns a [result]; the loop of [crawl] is run for a
    given number of passes, and [crawl_terminates] shows that some number
    always suffices.

    The definitions come first, the properties after them; the last part
    runs the checker on a small site. *)

From Stdlib Require Import String Ascii List ZArith Lia Bool Arith.
From Stdlib Require Import Floats Uint63 QArith Qround DecimalString.
From Stdlib Require Import Permutation.
Import ListNotations.

Local Open Scope list_scope.
Local Open Scope nat_scope.
Local Open Scope string_scope.

(** ** Python exceptions and results *)

(** The exceptions the script can meet.  [KeyboardInterrupt] derives from
    [BaseException] only, so [except Exception] does not catch it. *)
Inductive exn : Type :=
| RequestException (msg : string)
| ValueError (msg : string)
| TypeError (msg : string)
| OtherException (name msg : string)
| KeyboardInterrupt.

Definition is_Exception (e : exn) : bool :=
  match e with
  | KeyboardInterrupt => false
  | _ => true
  end.

(** The outcome of a call: a value, or a raised exception. *)
Inductive result (A : Type) : Type :=
| Return (a : A)
| Raise (e : exn).

Arguments Return {A} a.
Arguments Raise {A} e.

Definition bind {A B : Type} (r : result A) (k : A -> result B) : result B :=
  match r with
  | Return a => k a
  | Raise e => Raise e
  end.

Notation "x <- r ;; k" := (bind r (fun x => k))
  (at level 61, r at next level, right associativity).

(** ** String operations of [str] *)

Module PyStr.

Definition ord (c : ascii) : nat := nat_of_ascii c.
Definition chr (n : nat) : ascii := ascii_of_nat n.

Definition in_range (lo hi : nat) (c : ascii) : bool :=
  ((lo <=? ord c) && (ord c <=? hi))%nat.

(** [c.isascii() and c.isalpha()] *)
Definition isalpha_ascii (c : ascii) : bool :=
  in_range 65 90 c || in_range 97 122 c.

Definition isdigit_ascii (c : ascii) : bool := in_range 48 57 c.

(** [c.lower()] on code points below 256: the ASCII capitals and the
    Latin-1 capitals (all of U+00C0..U+00DE but the multiplication sign). *)
Definition lower_char (c : ascii) : ascii :=
  if in_range 65 90 c || (in_range 192 222 c && negb (ord c =? 215)%nat)
  then chr (ord c + 32)
  else c.

Fixpoint lower (s : string) : string :=
  match s with
  | EmptyString => EmptyString
  | String c s' => String (lower_char c) (lower s')
  end.

(** [c in s] for a single character [c] *)
Fixpoint mem_char (c : ascii) (s : string) : bool :=
  match s with
  | EmptyString => false
  | String a s' => Ascii.eqb a c || mem_char c s'
  end.

Fixpoint forall_char (p : ascii -> bool) (s : string) : bool :=
  match s with
  | EmptyString => true
  | String a s' => p a && forall_char p s'
  end.

(** [s.startswith(pre)] *)
Fixpoint startswith (s pre : string) {struct pre} : bool :=
  match pre with
  | EmptyString => true
  | String p pre' =>
      match s with
      | EmptyString => false
      | String c s' => Ascii.eqb c p && startswith s' pre'
      end
  end.

(** [s.endswith(suf)] *)
Fixpoint endswith (s suf : string) : bool :=
  String.eqb s suf ||
  match s with
  | EmptyString => false
  | String _ s' => endswith s' suf
  end.

(** [sub in s] *)
Fixpoint contains (s sub : string) : bool :=
  startswith s sub ||
  match s with
  | EmptyString => false
  | String _ s' => contains s' sub
  end.

(** [s.lstrip(chars)], [s.rstrip(chars)] and [s.strip(chars)], the set
    [chars] given by its membership test *)
Fixpoint lstrip (p : ascii -> bool) (s : string) : string :=
  match s with
  | EmptyString => EmptyString
  | String c s' => if p c then lstrip p s' else s
  end.

Fixpoint rstrip (p : ascii -> bool) (s : string) : string :=
  match s with
  | EmptyString => EmptyString
  | String c s' =>
      match rstrip p s' with
      | EmptyString => if p c then EmptyString else String c EmptyString
      | r => String c r
      end
  end.

Definition strip (p : ascii -> bool) (s : string) : string :=
  lstrip p (rstrip p s).

(** Every character of the set deleted: [s.replace(b, "")] for each [b]. *)
Fixpoint remove (p : ascii -> bool) (s : string) : string :=
  match s with
  | EmptyString => EmptyString
  | String c s' => if p c then remove p s' else String c (remove p s')
  end.

(** The longest prefix of characters satisfying [p], and what follows it. *)
Fixpoint span (p : ascii -> bool) (s : string) : string * string :=
  match s with
  | EmptyString => (EmptyString, EmptyString)
  | String c s' =>
      if p c
      then let (a, b) := span p s' in (String c a, b)
      else (EmptyString, s)
  end.

(** [s.partition(c)]: the text before the first [c], and the text after it
    when there is one. *)
Definition partition (c : ascii) (s : string) : string * option string :=
  let (a, b) := span (fun x => negb (Ascii.eqb x c)) s in
  match b with
  | EmptyString => (a, None)
  | String _ b' => (a, Some b')
  end.

(** The text up to and including the last [c] (empty when there is none),
    and the text after it: [s[:s.rfind(c)+1]] and [s[s.rfind(c)+1:]]. *)
Fixpoint rbreak (c : ascii) (s : string) : string * string :=
  match s with
  | EmptyString => (EmptyString, EmptyString)
  | String a s' =>
      let (h, t) := rbreak c s' in
      match h with
      | EmptyString =>
          if Ascii.eqb a c then (String a EmptyString, t)
          else (EmptyString, String a t)
      | _ => (String a h, t)
      end
  end.

(** [s.split(c)] *)
Fixpoint split (c : ascii) (s : string) : list string :=
  match s with
  | EmptyString => [EmptyString]
  | String a s' =>
      match split c s' with
      | [] => [EmptyString]
      | h :: t => if Ascii.eqb a c then EmptyString :: h :: t else String a h :: t
      end
  end.

(** [sep.join(l)] *)
Fixpoint join (sep : string) (l : list string) : string :=
  match l with
  | [] => EmptyString
  | [x] => x
  | x :: rest => x ++ sep ++ join sep rest
  end.

(** [s[n:]] *)
Fixpoint drop (n : nat) (s : string) : string :=
  match n, s with
  | S k, String _ s' => drop k s'
  | _, _ => s
  end.

(** [x in l] for a list (or set) of strings *)
Definition mem (x : string) (l : list string) : bool :=
  existsb (String.eqb x) l.

(** [str(n)] for an integer *)
Definition str_of_int (n : Z) : string :=
  NilEmpty.string_of_int (Z.to_int n).

End PyStr.

Import PyStr.

(** ** The world outside the interpreter *)

(** What an HTTP response offers to the script: [status_code],
    [elapsed.total_seconds()], [url], the [content-type] header when the
    server sent one, and [text]. *)
Record Response : Type := {
  resp_status_code : Z;
  resp_elapsed : float;
  resp_url : string;
  resp_content_type : option string;
  resp_text : string
}.

(** The two places that call [session.get]: [check_url] (with a timeout and
    redirects allowed) and the link extraction inside [crawl]. *)
Inductive call_site : Type :=
| InCheckUrl
| InCrawl.

Record Request : Type := {
  req_site : call_site;
  req_url : string
}.

(** The runtime the script runs against.  [session_get] answers a request
    given the requests sent before it, so two requests for one URL may be
    answered differently; [time_sleep] returns an exception when
    [time.sleep] raises (a negative delay, say); [set_iter] is the order in
    which a [for] loop visits the elements of a [set], which Python leaves
    unspecified; [check_bracketed_netloc] is [urllib.parse]'s test of a
    bracketed host, which consults the [ipaddress] module. *)
Record Runtime : Type := {
  session_get : list Request -> Request -> result Response;
  time_sleep : float -> option exn;
  set_iter : list string -> list string;
  check_bracketed_netloc : string -> bool
}.

(** ** [urllib.parse] (CPython 3.11) *)

Record SplitResult : Type := {
  split_scheme : string;
  split_netloc : string;
  split_path : string;
  split_query : string;
  split_fragment : string
}.

Record ParseResult : Type := {
  scheme : string;
  netloc : string;
  path : string;
  params : string;
  query : string;
  fragment : string
}.

Definition uses_relative : list string :=
  [""; "ftp"; "http"; "gopher"; "nntp"; "imap"; "wais"; "file"; "https";
   "shttp"; "mms"; "prospero"; "rtsp"; "rtspu"; "sftp"; "svn"; "svn+ssh";
   "ws"; "wss"].

Definition uses_netloc : list string :=
  [""; "ftp"; "http"; "gopher"; "nntp"; "telnet"; "imap"; "wais"; "file";
   "mms"; "https"; "shttp"; "snews"; "prospero"; "rtsp"; "rtspu"; "rsync";
   "svn"; "svn+ssh"; "sftp"; "nfs"; "git"; "git+ssh"; "ws"; "wss"].

Definition uses_params : list string :=
  [""; "ftp"; "hdl"; "prospero"; "http"; "imap"; "https"; "shttp"; "rtsp";
   "rtspu"; "sip"; "sips"; "mms"; "sftp"; "tel"].

(** [_WHATWG_C0_CONTROL_OR_SPACE]: the code points 0 to 32 *)
Definition is_c0_or_space (c : ascii) : bool := (ord c <=? 32)%nat.

(** [_UNSAFE_URL_BYTES_TO_REMOVE]: tab, carriage return, line feed *)
Definition is_unsafe_byte (c : ascii) : bool :=
  ((ord c =? 9) || (ord c =? 13) || (ord c =? 10))%nat.

(** [c in scheme_chars] *)
Definition is_scheme_char (c : ascii) : bool :=
  isalpha_ascii c || isdigit_ascii c ||
  Ascii.eqb c "+" || Ascii.eqb c "-" || Ascii.eqb c ".".

(** The scheme test of [urlsplit]: a colon not in first place, an ASCII
    letter first, scheme characters only before the colon. *)
Definition take_scheme (url default : string) : string * string :=
  match partition ":" url with
  | (String c pre, Some rest) =>
      if isalpha_ascii c && forall_char is_scheme_char (String c pre)
      then (lower (String c pre), rest)
      else (default, url)
  | _ => (default, url)
  end.

Definition is_netloc_delim (c : ascii) : bool :=
  Ascii.eqb c "/" || Ascii.eqb c "?" || Ascii.eqb c "#".

(** [_splitnetloc(url, 2)] *)
Definition _splitnetloc (url : string) : string * string :=
  match url with
  | String _ (String _ rest) => span (fun c => negb (is_netloc_delim c)) rest
  | _ => (EmptyString, EmptyString)
  end.

(** [_splitparams(url)], with the result of [urlparse] when the path has no
    semicolon folded in: nothing is split off then. *)
Definition _splitparams (url : string) : string * string :=
  let (h, t) := rbreak "/" url in
  match partition ";" t with
  | (a, Some b) => (h ++ a, b)
  | (_, None) => (url, EmptyString)
  end.

Definition or_empty (o : option string) : string :=
  match o with
  | Some s => s
  | None => EmptyString
  end.

(** The end of [urlsplit]: the fragment is cut off at the first [#], then
    the query at the first [?]. *)
Definition split_tail (sch n url : string) : SplitResult :=
  let (url, frag) := partition "#" url in
  let (url, qry) := partition "?" url in
  {| split_scheme := sch; split_netloc := n; split_path := url;
     split_query := or_empty qry; split_fragment := or_empty frag |}.

Section Urllib.

Variable rt : Runtime.

(** The bracket tests of [urlsplit]; [false] stands for the [ValueError]. *)
Definition netloc_brackets_ok (n : string) : bool :=
  let o := mem_char "[" n in
  let c := mem_char "]" n in
  if (o && negb c) || (c && negb o) then false
  else if o && c then check_bracketed_netloc rt n
  else true.

(** [urlsplit(url, scheme)].  [_checknetloc] only rejects a host with a code
    point whose NFKC form holds one of [/?#@:]; no code point below 256 has
    such a form, so the call is left out. *)
Definition urlsplit (url default : string) : result SplitResult :=
  let url := remove is_unsafe_byte (lstrip is_c0_or_space url) in
  let default := remove is_unsafe_byte (strip is_c0_or_space default) in
  let (sch, url) := take_scheme url default in
  nu <- (if startswith url "//"
         then let (n, rest) := _splitnetloc url in
              if netloc_brackets_ok n then Return (n, rest)
              else Raise (ValueError "Invalid IPv6 URL")
         else Return (EmptyString, url)) ;;
  let (n, url) := (nu : string * string) in
  Return (split_tail sch n url).

(** [urlparse(url, scheme)] *)
Definition urlparse_default (url default : string) : result ParseResult :=
  r <- urlsplit url default ;;
  let (p, prm) := if mem (split_scheme r) uses_params
                  then _splitparams (split_path r)
                  else (split_path r, EmptyString) in
  Return {| scheme := split_scheme r; netloc := split_netloc r; path := p;
            params := prm; query := split_query r;
            fragment := split_fragment r |}.

(** [urlparse(url)] *)
Definition urlparse (url : string) : result ParseResult :=
  urlparse_default url EmptyString.

End Urllib.

(** [urlunsplit((scheme, netloc, url, query, fragment))] *)
Definition urlunsplit (sch n url qry frag : string) : string :=
  let url :=
    if negb (String.eqb n "") ||
       (negb (String.eqb sch "") && mem sch uses_netloc &&
        negb (startswith url "//"))
    then "//" ++ n ++
         (if negb (String.eqb url "") && negb (startswith url "/")
          then "/" ++ url else url)
    else url in
  let url := if String.eqb sch "" then url else sch ++ ":" ++ url in
  let url := if String.eqb qry "" then url else url ++ "?" ++ qry in
  if String.eqb frag "" then url else url ++ "#" ++ frag.

(** [urlunparse((scheme, netloc, url, params, query, fragment))] *)
Definition urlunparse (sch n url prm qry frag : string) : string :=
  urlunsplit sch n (if String.eqb prm "" then url else url ++ ";" ++ prm)
             qry frag.

(** [segments[1:-1] = filter(None, segments[1:-1])] *)
Definition drop_empty_middle (segments : list string) : list string :=
  match segments with
  | [] => []
  | first :: rest =>
      match rest with
      | [] => [first]
      | _ => first ::
             (filter (fun s => negb (String.eqb s "")) (removelast rest) ++
              [last rest EmptyString])%list
      end
  end.

(** The loop of [urljoin] over the segments: [..] pops, [.] is skipped. *)
Fixpoint resolve_segments (segments resolved_path : list string) : list string :=
  match segments with
  | [] => resolved_path
  | seg :: more =>
      if String.eqb seg ".." then resolve_segments more (removelast resolved_path)
      else if String.eqb seg "." then resolve_segments more resolved_path
      else resolve_segments more (resolved_path ++ [seg])%list
  end.

Section UrlJoin.

Variable rt : Runtime.

(** [urljoin(base, url)] *)
Definition urljoin (base url : string) : result string :=
  if String.eqb base "" then Return url
  else if String.eqb url "" then Return base
  else
    b <- urlparse rt base ;;
    u <- urlparse_default rt url (scheme b) ;;
    if negb (String.eqb (scheme u) (scheme b)) || negb (mem (scheme u) uses_relative)
    then Return url
    else if mem (scheme u) uses_netloc && negb (String.eqb (netloc u) "")
    then Return (urlunparse (scheme u) (netloc u) (path u) (params u)
                            (query u) (fragment u))
    else
      let n := if mem (scheme u) uses_netloc then netloc b else netloc u in
      if String.eqb (path u) "" && String.eqb (params u) ""
      then Return (urlunparse (scheme u) n (path b) (params b)
                     (if String.eqb (query u) "" then query b else query u)
                     (fragment u))
      else
        let base_parts := split "/" (path b) in
        let base_parts :=
          if String.eqb (last base_parts EmptyString) "" then base_parts
          else removelast base_parts in
        let segments :=
          if startswith (path u) "/" then split "/" (path u)
          else drop_empty_middle (base_parts ++ split "/" (path u))%list in
        let resolved_path := resolve_segments segments [] in
        let resolved_path :=
          if mem (last segments EmptyString) ["."; ".."]
          then (resolved_path ++ [EmptyString])%list else resolved_path in
        let joined := join "/" resolved_path in
        Return (urlunparse (scheme u) n
                  (if String.eqb joined "" then "/" else joined)
                  (params u) (query u) (fragment u)).

End UrlJoin.

(** ** The two patterns of [re.finditer] *)

(** The two quote characters of the patterns' classes: the double quote
    (code point 34) and the single quote (39). *)
Definition is_quote (c : ascii) : bool :=
  ((ord c =? 34) || (ord c =? 39))%nat.

(** One attempt of a pattern at the start of [s]: the attribute name and
    [=], case ignored ([attr], given in lower case); a quote; group 1, one
    or more characters that are no quote; a quote.  The attempt returns
    group 1 and the length of the match.  The group is greedy and what stops
    it is a quote or the end of the text, so the attempt succeeds exactly
    when the run is not empty and a quote follows it. *)
Definition match_attr (attr s : string) : option (string * nat) :=
  if startswith (lower s) attr then
    match drop (String.length attr) s with
    | String q rest =>
        if is_quote q then
          let (v, after) := span (fun c => negb (is_quote c)) rest in
          match v, after with
          | String _ _, String _ _ =>
              Some (v, String.length attr + 1 + String.length v + 1)
          | _, _ => None
          end
        else None
    | EmptyString => None
    end
  else None.

(** [[m.group(1) for m in re.finditer(pattern, s, re.IGNORECASE)]]: matches
    are sought from left to right and do not overlap; [skip] counts the
    characters of the last match still to pass. *)
Fixpoint finditer_from (attr : string) (skip : nat) (s : string) : list string :=
  match s with
  | EmptyString => []
  | String _ s' =>
      match skip with
      | S k => finditer_from attr k s'
      | O =>
          match match_attr attr s with
          | Some (v, n) => v :: finditer_from attr (n - 1) s'
          | None => finditer_from attr 0 s'
          end
      end
  end.

Definition finditer (attr s : string) : list string := finditer_from attr 0 s.

Definition href_pattern : string := "href=".
Definition src_pattern : string := "src=".

(** ** The [LinkChecker] class *)

(** The dictionary [check_url] returns. *)
Record FetchResult : Type := {
  r_url : string;
  r_status_code : option Z;
  r_response_time : option float;
  r_final_url : option string;
  r_content_type : option string;
  r_error : option string
}.

(** An entry of [valid_links] (the dictionary itself, no [issue] key) or of
    [broken_links] (the dictionary extended with [issue]). *)
Record LinkRecord : Type := {
  fetched : FetchResult;
  issue : option string
}.

(** The attributes of a [LinkChecker].  [visited] is a [set], kept here as a
    list without repetition; [to_visit] is the [deque], its left end first;
    [session] is the list of requests sent through [self.session] so far. *)
Record LinkChecker : Type := {
  base_url : string;
  max_pages : Z;
  delay : float;
  visited : list string;
  to_visit : list string;
  broken_links : list LinkRecord;
  valid_links : list LinkRecord;
  session : list Request
}.

Definition set_visited (v : list string) (self : LinkChecker) : LinkChecker :=
  {| base_url := base_url self; max_pages := max_pages self;
     delay := delay self; visited := v; to_visit := to_visit self;
     broken_links := broken_links self; valid_links := valid_links self;
     session := session self |}.

Definition set_to_visit (q : list string) (self : LinkChecker) : LinkChecker :=
  {| base_url := base_url self; max_pages := max_pages self;
     delay := delay self; visited := visited self; to_visit := q;
     broken_links := broken_links self; valid_links := valid_links self;
     session := session self |}.

Definition set_broken_links (l : list LinkRecord) (self : LinkChecker) : LinkChecker :=
  {| base_url := base_url self; max_pages := max_pages self;
     delay := delay self; visited := visited self; to_visit := to_visit self;
     broken_links := l; valid_links := valid_links self;
     session := session self |}.

Definition set_valid_links (l : list LinkRecord) (self : LinkChecker) : LinkChecker :=
  {| base_url := base_url self; max_pages := max_pages self;
     delay := delay self; visited := visited self; to_visit := to_visit self;
     broken_links := broken_links self; valid_links := l;
     session := session self |}.

Definition set_session (l : list Request) (self : LinkChecker) : LinkChecker :=
  {| base_url := base_url self; max_pages := max_pages self;
     delay := delay self; visited := visited self; to_visit := to_visit self;
     broken_links := broken_links self; valid_links := valid_links self;
     session := l |}.

(** [s.add(x)] on a set kept as a list *)
Definition set_add (x : string) (s : list string) : list string :=
  if mem x s then s else (s ++ [x])%list.

(** [LinkChecker(base_url, max_pages, delay)] *)
Definition __init__ (url : string) (pages : Z) (d : float) : LinkChecker :=
  {| base_url := rstrip (Ascii.eqb "/") url; max_pages := pages; delay := d;
     visited := []; to_visit := [url];
     broken_links := []; valid_links := []; session := [] |}.

Definition skip_extensions : list string :=
  [".png"; ".jpg"; ".jpeg"; ".gif"; ".svg"; ".ico"; ".css"; ".js"; ".pdf";
   ".zip"; ".exe"; ".dmg"].

(** The f-string [f"{parsed.scheme}://{parsed.netloc}{parsed.path}"] *)
Definition clean_url (parsed : ParseResult) : string :=
  scheme parsed ++ "://" ++ netloc parsed ++ path parsed.

Section Checker.

Variable rt : Runtime.

(** [canonicalize]: the clean form of a URL as [is_valid_url] and
    [extract_links] compute it, [urlparse] followed by the f-string. *)
Definition canonicalize (url : string) : result string :=
  parsed <- urlparse rt url ;; Return (clean_url parsed).

(** [LinkChecker.is_valid_url]; [except Exception: return False] is the
    [Raise] branch. *)
Definition is_valid_url (self : LinkChecker) (url : string) : bool :=
  match
    (parsed <- urlparse rt url ;;
     base_parsed <- urlparse rt (base_url self) ;;
     if negb (String.eqb (netloc parsed) "") &&
        negb (String.eqb (netloc parsed) (netloc base_parsed))
     then Return false
     else if negb (String.eqb (scheme parsed) "") &&
             negb (mem (scheme parsed) ["http"; "https"])
     then Return false
     else if existsb (fun ext => endswith (lower url) ext) skip_extensions
     then Return false
     else Return (negb (mem (clean_url parsed) (visited self))))
  with
  | Return b => b
  | Raise _ => false
  end.

(** The first loop of [extract_links], over the [href] matches. *)
Fixpoint extract_hrefs (self : LinkChecker) (current_url : string)
  (matches links : list string) : result (list string) :=
  match matches with
  | [] => Return links
  | link :: more =>
      full_url <- urljoin rt current_url link ;;
      if is_valid_url self full_url then
        parsed <- urlparse rt full_url ;;
        extract_hrefs self current_url more (set_add (clean_url parsed) links)
      else extract_hrefs self current_url more links
  end.

(** The second loop of [extract_links], over the [src] matches. *)
Fixpoint extract_srcs (self : LinkChecker) (current_url : string)
  (matches links : list string) : result (list string) :=
  match matches with
  | [] => Return links
  | link :: more =>
      full_url <- urljoin rt current_url link ;;
      if startswith full_url (base_url self)
      then extract_srcs self current_url more (set_add full_url links)
      else extract_srcs self current_url more links
  end.

(** [LinkChecker.extract_links] *)
Definition extract_links (self : LinkChecker) (html_content current_url : string)
  : result (list string) :=
  links <- extract_hrefs self current_url (finditer href_pattern html_content) [] ;;
  extract_srcs self current_url (finditer src_pattern html_content) links.

(** [self.session.get(...)]: the request is recorded, then answered. *)
Definition get (self : LinkChecker) (rq : Request) : result Response * LinkChecker :=
  (session_get rt (session self) rq,
   set_session (session self ++ [rq])%list self).

(** [LinkChecker.check_url]: only [RequestException] is caught. *)
Definition check_url (self : LinkChecker) (url : string)
  : result FetchResult * LinkChecker :=
  let (r, self) := get self {| req_site := InCheckUrl; req_url := url |} in
  match r with
  | Return response =>
      (Return {| r_url := url;
                 r_status_code := Some (resp_status_code response);
                 r_response_time := Some (resp_elapsed response);
                 r_final_url := Some (resp_url response);
                 r_content_type := Some (or_empty (resp_content_type response));
                 r_error := None |}, self)
  | Raise (RequestException msg) =>
      (Return {| r_url := url; r_status_code := None;
                 r_response_time := None; r_final_url := None;
                 r_content_type := None; r_error := Some msg |}, self)
  | Raise e => (Raise e, self)
  end.

End Checker.

(** ** The crawl loop *)

(** The state of [crawl] at the head of its [while] loop: the object and
    the local counter. *)
Record Crawl : Type := {
  checker : LinkChecker;
  pages_checked : Z
}.

(** What one pass through the loop comes to: the loop goes on, its
    condition was false, or an exception left it. *)
Inductive status : Type :=
| Running
| Done
| Failed (e : exn).

(** Truth of an optional string in a condition: [None] and the empty string
    are false. *)
Definition truthy (o : option string) : bool :=
  match o with
  | Some s => negb (String.eqb s "")
  | None => false
  end.

(** The dictionary [{**result, 'issue': text}] *)
Definition with_issue (result : FetchResult) (text : string) : LinkRecord :=
  {| fetched := result; issue := Some text |}.

Section CrawlLoop.

Variable rt : Runtime.

(** The [for link in links] loop of [crawl]: [visited] does not change
    while it runs. *)
Definition enqueue_links (links : list string) (self : LinkChecker) : LinkChecker :=
  set_to_visit
    (to_visit self ++
     filter (fun link => negb (mem link (visited self))) (set_iter rt links))%list
    self.

(** The [try] block of [crawl]: the page is requested again and its links
    are put on the queue; [except Exception] swallows what it can. *)
Definition extract_and_enqueue (self : LinkChecker) (current_url : string)
  : option exn * LinkChecker :=
  let (r, self) := get rt self {| req_site := InCrawl; req_url := current_url |} in
  match (response <- r ;; extract_links rt self (resp_text response) current_url) with
  | Return links => (None, enqueue_links links self)
  | Raise e => if is_Exception e then (None, self) else (Some e, self)
  end.

(** [time.sleep(self.delay)] at the end of a pass *)
Definition rate_limit (self : LinkChecker) (n : Z) : status * Crawl :=
  match time_sleep rt (delay self) with
  | None => (Running, {| checker := self; pages_checked := n |})
  | Some e => (Failed e, {| checker := self; pages_checked := n |})
  end.

(** The body of the loop from [result = self.check_url(current_url)] on,
    for the dictionary [check_url] returned. *)
Definition record_result (self : LinkChecker) (n : Z) (current_url : string)
  (result : FetchResult) : status * Crawl :=
  let connection_issue := "Connection error: " ++ or_empty (r_error result) in
  let http_issue := fun code => "HTTP " ++ str_of_int code ++ " error" in
  if truthy (r_error result) then
    rate_limit
      (set_broken_links
         (broken_links self ++
          [with_issue result connection_issue])%list
         self) n
  else
    match r_status_code result with
    | None =>
        (Failed (TypeError "'>=' not supported between instances of 'NoneType' and 'int'"),
         {| checker := self; pages_checked := n |})
    | Some code =>
        if (code >=? 400)%Z then
          rate_limit
            (set_broken_links
               (broken_links self ++
                [with_issue result (http_issue code)])%list
               self) n
        else
          let self :=
            set_valid_links
              (valid_links self ++ [{| fetched := result; issue := None |}])%list
              self in
          if truthy (r_content_type result) &&
             contains (or_empty (r_content_type result)) "text/html" &&
             (code =? 200)%Z
          then
            match extract_and_enqueue self current_url with
            | (None, self) => rate_limit self n
            | (Some e, self) => (Failed e, {| checker := self; pages_checked := n |})
            end
          else rate_limit self n
    end.

(** One pass through the [while] loop of [crawl]. *)
Definition crawl_step (c : Crawl) : status * Crawl :=
  let self := checker c in
  match to_visit self with
  | [] => (Done, c)
  | current_url :: rest =>
      if (pages_checked c <? max_pages self)%Z then
        let self := set_to_visit rest self in
        if mem current_url (visited self)
        then (Running, {| checker := self; pages_checked := pages_checked c |})
        else
          let self := set_visited (set_add current_url (visited self)) self in
          let n := (pages_checked c + 1)%Z in
          let (r, self) := check_url rt self current_url in
          match r with
          | Raise e => (Failed e, {| checker := self; pages_checked := n |})
          | Return result => record_result self n current_url result
          end
      else (Done, c)
  end.

(** The loop, run for at most [fuel] passes: [None] when the passes ran
    out, otherwise how the loop ended and the state it left. *)
Fixpoint crawl_loop (fuel : nat) (c : Crawl) : option (result unit * Crawl) :=
  match fuel with
  | O => None
  | S fuel' =>
      match crawl_step c with
      | (Running, c') => crawl_loop fuel' c'
      | (Done, c') => Some (Return tt, c')
      | (Failed e, c') => Some (Raise e, c')
      end
  end.

(** [LinkChecker.crawl] *)
Definition crawl (fuel : nat) (self : LinkChecker) : option (result unit * Crawl) :=
  crawl_loop fuel {| checker := self; pages_checked := 0 |}.

(** The states at the head of the loop of a crawl that was called on the
    object [self0]. *)
Inductive reachable (self0 : LinkChecker) : Crawl -> Prop :=
| reach_start :
    reachable self0 {| checker := self0; pages_checked := 0 |}
| reach_step : forall c c',
    reachable self0 c ->
    crawl_step c = (Running, c') ->
    reachable self0 c'.

End CrawlLoop.

(** ** The report *)

(** A number of the report: an [int] or a [float]. *)
Inductive number : Type :=
| Int (z : Z)
| Float (f : float).

(** [len(l)] *)
Definition len {A : Type} (l : list A) : Z := Z.of_nat (List.length l).

(** [float(n)] for a length: exact below 2^53. *)
Definition float_of_len (n : Z) : float := of_uint63 (Uint63.of_Z n).

(** [a / b] on two lengths, [b] not zero: the quotient of the two floats,
    which is the correctly rounded quotient Python returns as long as both
    are below 2^53. *)
Definition true_div (a b : Z) : float :=
  (float_of_len a / float_of_len b)%float.

Record Report : Type := {
  scan_base_url : string;
  scan_timestamp : string;
  total_pages_checked : Z;
  total_links_found : Z;
  summary_valid_links : Z;
  summary_broken_links : Z;
  success_rate : number;
  report_broken_links : list LinkRecord;
  report_valid_links : list LinkRecord
}.

(** [LinkChecker.generate_report]; [now] is [datetime.now().isoformat()]. *)
Definition generate_report (now : string) (self : LinkChecker) : Report :=
  {| scan_base_url := base_url self;
     scan_timestamp := now;
     total_pages_checked := len (visited self);
     total_links_found := (len (valid_links self) + len (broken_links self))%Z;
     summary_valid_links := len (valid_links self);
     summary_broken_links := len (broken_links self);
     success_rate :=
       if (len (valid_links self) + len (broken_links self) >? 0)%Z
       then Float (true_div (len (valid_links self))
                            (len (valid_links self) + len (broken_links self))
                   * 100)%float
       else Int 0;
     report_broken_links := broken_links self;
     report_valid_links := valid_links self |}.

(** ** The vocabulary of the properties *)

(** The requests [check_url] sent: the fetch attempts of a crawl. *)
Definition is_fetch (rq : Request) : bool :=
  match req_site rq with
  | InCheckUrl => true
  | InCrawl => false
  end.

Definition fetch_attempts (self : LinkChecker) : Z :=
  len (filter is_fetch (session self)).

(** [str(e)] *)
Definition str_of_exn (e : exn) : string :=
  match e with
  | RequestException msg => msg
  | ValueError msg => msg
  | TypeError msg => msg
  | OtherException _ msg => msg
  | KeyboardInterrupt => EmptyString
  end.

(** The outcomes of a request that [check_url] is written for: a response,
    or a failure of the network, which [requests] reports as a
    [RequestException]. *)
Definition fetch_outcome (o : result Response) : bool :=
  match o with
  | Return _ => true
  | Raise (RequestException _) => true
  | Raise _ => false
  end.

(** The rational a finite float stands for. *)
Definition exact_value (f : float) : option Q :=
  match Prim2SF f with
  | S754_zero _ => Some 0%Q
  | S754_finite s m e =>
      Some ((if s then -1 else 1) * inject_Z (Zpos m) * Qpower 2 e)%Q
  | _ => None
  end.

(** What a counted pass (one that fetches) leaves behind: the URL is
    visited, the counter is one higher, [check_url] has sent one request and
    the [try] block at most one more, the queue lost its head and gained
    [added], and [recs_b] and [recs_v] were appended to the two lists. *)
Definition counted_pass (c : Crawl) (u : string) (rest : list string)
  (c' : Crawl) (extra : list Request) (added : list string)
  (recs_b recs_v : list LinkRecord) : Prop :=
  pages_checked c' = (pages_checked c + 1)%Z /\
  base_url (checker c') = base_url (checker c) /\
  max_pages (checker c') = max_pages (checker c) /\
  delay (checker c') = delay (checker c) /\
  visited (checker c') = (visited (checker c) ++ [u])%list /\
  to_visit (checker c') = (rest ++ added)%list /\
  session (checker c') =
    (session (checker c) ++ {| req_site := InCheckUrl; req_url := u |} :: extra)%list /\
  (extra = [] \/ extra = [{| req_site := InCrawl; req_url := u |}]) /\
  broken_links (checker c') = (broken_links (checker c) ++ recs_b)%list /\
  valid_links (checker c') = (valid_links (checker c) ++ recs_v)%list.

(** What holds at the head of the loop of a crawl called on [self0]: the
    budget is the one of [self0]; the counter counts the fetch attempts, the
    visited URLs and the records that the crawl added to those of [self0];
    and it stays within the budget. *)
Definition loop_invariant (self0 : LinkChecker) (c : Crawl) : Prop :=
  max_pages (checker c) = max_pages self0 /\
  fetch_attempts (checker c) = (fetch_attempts self0 + pages_checked c)%Z /\
  len (visited (checker c)) = (len (visited self0) + pages_checked c)%Z /\
  (len (valid_links (checker c)) + len (broken_links (checker c)))%Z =
    (len (valid_links self0) + len (broken_links self0) + pages_checked c)%Z /\
  (0 <= pages_checked c)%Z /\
  (pages_checked c <= Z.max 0 (max_pages self0))%Z.

(** The two marks that end the path of a URL. *)
Definition is_mark (d : ascii) : bool := Ascii.eqb d "?" || Ascii.eqb d "#".

(** The end of a URL from its first [?] or [#] on: its query and fragment,
    or nothing. *)
Definition is_query_or_fragment (m : string) : bool :=
  match m with
  | EmptyString => true
  | String d _ => is_mark d
  end.

(** Classes of characters: all but [c]; all but [?] and [#]; all but the
    unsafe bytes; all but the delimiters that end an authority. *)
Definition not_char (c : ascii) : ascii -> bool := fun x => negb (Ascii.eqb x c).

Definition path_char (c : ascii) : bool :=
  negb (Ascii.eqb c "#") && negb (Ascii.eqb c "?").

Definition safe_char (c : ascii) : bool := negb (is_unsafe_byte c).

Definition netloc_char (c : ascii) : bool := negb (is_netloc_delim c).

(** The scheme, the authority and the path of [urlsplit]'s result, which
    are all that [canonicalize] reads. *)
Definition location (r : SplitResult) : string * string * string :=
  (split_scheme r, split_netloc r, split_path r).

Definition canonical_of (l : string * string * string) : string :=
  let '(sch, n, p) := l in
  sch ++ "://" ++ n ++
  (if mem sch uses_params then fst (_splitparams p) else p).

(** What makes a scheme: an ASCII letter, then scheme characters, none of
    them a capital. *)
Definition scheme_shaped (s : string) : Prop :=
  (exists c0 s0, s = String c0 s0 /\ isalpha_ascii c0 = true) /\
  forall_char is_scheme_char s = true /\
  lower s = s.

(** The parts of a parsed URL that make its canonical form: the authority
    has no delimiter, the path no [?] and no [#], neither has an unsafe
    byte, the path has no parameters left to split off, and when there is
    an authority it passed the bracket test and the path is empty or starts
    with a slash. *)
Definition parsed_parts (rt : Runtime) (r : ParseResult) : Prop :=
  forall_char safe_char (netloc r ++ path r) = true /\
  forall_char netloc_char (netloc r) = true /\
  forall_char path_char (path r) = true /\
  (mem (scheme r) uses_params = true -> _splitparams (path r) = (path r, "")) /\
  (netloc r = "" \/
   (netloc_brackets_ok rt (netloc r) = true /\
    (path r = "" \/ exists w, path r = String "/" w))).

Ltac break_match :=
  match goal with
  | H : context [match ?x with _ => _ end] |- _ => destruct x eqn:?
  | |- context [match ?x with _ => _ end] => destruct x eqn:?
  end.

Ltac inv H := inversion H; subst; clear H.

(** ** The summary on the console *)

(** What [print] wrote: the text of each call, without the line feed that
    ends it.  [print] itself is taken to succeed. *)
Definition Console : Type := list string.

(** [print(text)] after [out] was printed *)
Definition print (out : Console) (text : string) : Console :=
  (out ++ [text])%list.

(** The line feed of ["\n"] *)
Definition nl : string := String "010" EmptyString.

(** [s * n] *)
Fixpoint str_mul (s : string) (n : nat) : string :=
  match n with
  | O => EmptyString
  | S k => s ++ str_mul s k
  end.

(** [f"{'='*60}"] *)
Definition rule : string := str_mul "=" 60.

(** The two pictographs of the summary, U+274C and U+1F389, as the bytes of
    their UTF-8 form. *)
Definition cross_mark : string :=
  String "226" (String "157" (String "140" EmptyString)).

Definition party_popper : string :=
  String "240" (String "159" (String "142" (String "137" EmptyString))).

(** The nearest integer, ties to the even one. *)
Definition round_half_even (q : Q) : Z :=
  let f := Qfloor q in
  match Qcompare (q - inject_Z f) (1 # 2) with
  | Lt => f
  | Gt => (f + 1)%Z
  | Eq => if Z.even f then f else (f + 1)%Z
  end.

(** [f"{x:.1f}"]: the decimal with one digit after the point that is
    nearest to the exact value of the float, ties to the even digit; the
    sign is kept when the digits are all zero. *)
Definition format_1f (x : float) : string :=
  match Prim2SF x with
  | S754_nan => "nan"
  | S754_infinity s => if s then "-inf" else "inf"
  | S754_zero s => if s then "-0.0" else "0.0"
  | S754_finite s m e =>
      let n := round_half_even (10 * inject_Z (Zpos m) * Qpower 2 e) in
      (if s then "-" else "") ++
      str_of_int (n / 10) ++ "." ++ str_of_int (n mod 10)
  end.

(** Truth of an optional integer in a condition: [None] and [0] are
    false. *)
Definition truthy_int (o : option Z) : bool :=
  match o with
  | Some z => negb (z =? 0)%Z
  | None => false
  end.

(** [str(KeyError(key))] is the [repr] of the key. *)
Definition KeyError (key : string) : exn :=
  OtherException "KeyError" ("'" ++ key ++ "'").

(** The [for link in self.broken_links] loop of [print_summary], after
    [out] was printed.  A dictionary without the key [issue] raises a
    [KeyError] when the second line is formatted, after the first was
    printed. *)
Fixpoint print_broken_links (links : list LinkRecord) (out : Console)
  : Console * option exn :=
  match links with
  | [] => (out, None)
  | link :: more =>
      let out := print out (nl ++ cross_mark ++ " " ++ r_url (fetched link)) in
      match issue link with
      | None => (out, Some (KeyError "issue"))
      | Some text =>
          let out := print out ("   Issue: " ++ text) in
          print_broken_links more
            (if truthy_int (r_status_code (fetched link))
             then print out ("   Status Code: " ++
                             match r_status_code (fetched link) with
                             | Some code => str_of_int code
                             | None => "None"
                             end)
             else out)
      end
  end.

(** [LinkChecker.print_summary]: what it prints, and the exception that
    ended it, if any. *)
Definition print_summary (self : LinkChecker) : Console * option exn :=
  let total_links := (len (valid_links self) + len (broken_links self))%Z in
  let out :=
    [nl ++ rule;
     "LINK CHECK SUMMARY";
     rule;
     "Base URL: " ++ base_url self;
     "Total pages checked: " ++ str_of_int (len (visited self));
     "Total links found: " ++ str_of_int total_links;
     "Valid links: " ++ str_of_int (len (valid_links self));
     "Broken links: " ++ str_of_int (len (broken_links self))] in
  let out :=
    if (total_links >? 0)%Z
    then print out ("Success rate: " ++
                    format_1f (true_div (len (valid_links self)) total_links * 100)%float ++
                    "%")
    else out in
  match broken_links self with
  | [] => (print out (nl ++ party_popper ++ " No broken links found!"), None)
  | _ :: _ =>
      print_broken_links (broken_links self)
        (print (print (print out (nl ++ rule)) "BROKEN LINKS DETAILS") rule)
  end.

(** ** The command line *)

(** [s.startswith(prefixes)] for a tuple of prefixes *)
Definition startswith_any (s : string) (prefixes : list string) : bool :=
  existsb (startswith s) prefixes.

(** The namespace [parse_args] returns. *)
Record Args : Type := {
  arg_url : string;
  arg_max_pages : Z;
  arg_delay : float;
  arg_output : option string
}.

(** What [main] needs of the machine besides the [Runtime] of the checker:
    [datetime.now().isoformat()] at the time of the report, and
    [open(path, 'w')] followed by [json.dump], which may raise (an
    [OSError], say). *)
Record Host : Type := {
  datetime_now : string;
  json_dump : string -> Report -> option exn
}.

(** How a call of [main] ends: it returns, [sys.exit(code)] ends it, or an
    exception leaves it. *)
Inductive ending : Type :=
| Returned
| Exited (code : Z)
| Uncaught (e : exn).

(** A run of [main]: what [main] and [print_summary] printed (the progress
    lines of [crawl], which all come before them, are not kept), the report
    that was written, how the run ended, and the checker it left, if one
    was made. *)
Record Run : Type := {
  console : Console;
  saved : option (string * Report);
  ended : ending;
  checker_after : option LinkChecker
}.

Section Main.

Variable rt : Runtime.
Variable host : Host.

(** The [try] block of [main] after [checker.crawl()] returned. *)
Definition summarize_and_save (args : Args) (self : LinkChecker)
  : Console * option (string * Report) * option exn :=
  let (out, e) := print_summary self in
  match e with
  | Some e => (out, None, Some e)
  | None =>
      if truthy (arg_output args) then
        let output := or_empty (arg_output args) in
        let report := generate_report (datetime_now host) self in
        match json_dump host output report with
        | Some e => (out, None, Some e)
        | None =>
            (print out (nl ++ "Detailed report saved to: " ++ output),
             Some (output, report), None)
        end
      else (out, None, None)
  end.

(** The two [except] clauses of [main], for what the [try] block printed,
    saved and raised. *)
Definition handle (self : LinkChecker) (out : Console)
  (file : option (string * Report)) (e : option exn) : Run :=
  match e with
  | None =>
      {| console := out; saved := file; ended := Returned; checker_after := Some self |}
  | Some KeyboardInterrupt =>
      let (summary, e') := print_summary self in
      {| console :=
           (print out (nl ++ nl ++ "Link check interrupted by user.") ++ summary)%list;
         saved := file;
         ended := match e' with
                  | None => Returned
                  | Some e' => Uncaught e'
                  end;
         checker_after := Some self |}
  | Some e =>
      {| console := print out (nl ++ "Error during link checking: " ++ str_of_exn e);
         saved := file;
         ended := Exited 1;
         checker_after := Some self |}
  end.

(** [main()], for the arguments [parse_args] returned; [None] when [fuel]
    passes did not end the crawl. *)
Definition main (fuel : nat) (args : Args) : option Run :=
  if negb (startswith_any (arg_url args) ["http://"; "https://"])
  then Some {| console := ["Error: URL must start with http:// or https://"];
               saved := None; ended := Exited 1; checker_after := None |}
  else
    match crawl rt fuel
            (__init__ (arg_url args) (arg_max_pages args) (arg_delay args)) with
    | None => None
    | Some (Raise e, c) => Some (handle (checker c) [] None (Some e))
    | Some (Return _, c) =>
        let '(out, file, e) := summarize_and_save args (checker c) in
        Some (handle (checker c) out file e)
    end.

End Main.

(** ** More vocabulary *)

(** [link['url']] of a record *)
Definition url_of (l : LinkRecord) : string := r_url (fetched l).

(** A record as [crawl] appends it to [valid_links]: a response below 400,
    no error, no [issue] key. *)
Definition valid_record (l : LinkRecord) : bool :=
  match issue l, r_error (fetched l), r_status_code (fetched l) with
  | None, None, Some code => (code <? 400)%Z
  | _, _, _ => false
  end.

(** A record as [crawl] appends it to [broken_links]: a failed connection
    with its message, or a response from 400 on with its code. *)
Definition broken_record (l : LinkRecord) : bool :=
  match issue l, r_error (fetched l), r_status_code (fetched l) with
  | Some text, Some msg, None =>
      negb (String.eqb msg "") && String.eqb text ("Connection error: " ++ msg)
  | Some text, None, Some code =>
      (400 <=? code)%Z && String.eqb text ("HTTP " ++ str_of_int code ++ " error")
  | _, _, _ => false
  end.

(** The URLs [check_url] requested, in the order of the requests. *)
Definition fetched_urls (self : LinkChecker) : list string :=
  map req_url (filter is_fetch (session self)).

(** The URLs of the records, the valid ones first. *)
Definition recorded_urls (self : LinkChecker) : list string :=
  map url_of (valid_links self ++ broken_links self)%list.


(** What the two lists hold when only [crawl] wrote to them. *)
Definition records_ok (self : LinkChecker) : Prop :=
  Forall (fun l => valid_record l = true) (valid_links self) /\
  Forall (fun l => broken_record l = true) (broken_links self).


(** A record of a page that [crawl] reads links from: the status code is
    200 and the content type holds [text/html]. *)
Definition html_page (l : LinkRecord) : bool :=
  match r_status_code (fetched l) with
  | Some code =>
      (code =? 200)%Z && contains (or_empty (r_content_type (fetched l))) "text/html"
  | None => false
  end.

(** Every second request for a page, the one of the link extraction, is
    for a URL with a valid record of an HTML page. *)
Definition extraction_requests_ok (self : LinkChecker) : Prop :=
  forall rq,
    In rq (session self) ->
    req_site rq = InCrawl ->
    exists l,
      In l (valid_links self) /\ url_of l = req_url rq /\ html_page l = true.


(** ** A small site to run the checker on *)

Module Scenario.

Definition html : string := "text/html; charset=utf-8".

Definition page (code : Z) (ctype body url : string) : Response :=
  {| resp_status_code := code; resp_elapsed := 0.25%float; resp_url := url;
     resp_content_type := Some ctype; resp_text := body |}.

Fixpoint lookup (url : string) (site : list (string * Response)) : option Response :=
  match site with
  | [] => None
  | (k, r) :: more => if String.eqb k url then Some r else lookup url more
  end.

(** A runtime that serves the pages of [site] and refuses every other
    connection with the message [refusal]; sets are visited in the order
    their elements were added. *)
Definition serve (refusal : string) (site : list (string * Response)) : Runtime :=
  {| session_get := fun _ rq =>
       match lookup (req_url rq) site with
       | Some r => Return r
       | None => Raise (RequestException refusal)
       end;
     time_sleep := fun d =>
       if (d <? 0)%float
       then Some (ValueError "sleep length must be non-negative")
       else None;
     set_iter := fun l => l;
     check_bracketed_netloc := fun _ => false |}.

Definition seed : string := "https://example.test/".

(** The seed links to two pages, to a missing page and to another site. *)
Definition docs_site : list (string * Response) :=
  [ ("https://example.test/",
     page 200 html
       "<a href='/a'>a</a> <a href='/b#top'>b</a> <a href='/missing'>m</a> <a href='https://other.test/x'>x</a>"
       "https://example.test/");
    ("https://example.test/a", page 200 html "<a href='/'>home</a>" "https://example.test/a");
    ("https://example.test/b", page 200 html "" "https://example.test/b");
    ("https://example.test/missing", page 404 html "" "https://example.test/missing") ].

(** The seed loads one script under two version numbers. *)
Definition versioned_site : list (string * Response) :=
  [ ("https://example.test/",
     page 200 html
       "<script src='/app.js?v=1'></script><script src='/app.js?v=2'></script>"
       "https://example.test/");
    ("https://example.test/app.js?v=1",
     page 200 "application/javascript" "" "https://example.test/app.js?v=1");
    ("https://example.test/app.js?v=2",
     page 200 "application/javascript" "" "https://example.test/app.js?v=2") ].

(** The seed embeds an image served by a host whose name starts with the
    name of the seed's host. *)
Definition lookalike_site : list (string * Response) :=
  [ ("https://example.test/",
     page 200 html "<img src='https://example.test.evil.example/pixel'>"
       "https://example.test/");
    ("https://example.test.evil.example/pixel",
     page 200 "image/gif" "" "https://example.test.evil.example/pixel") ].

(** The seed links to an image with a cache-busting query. *)
Definition logo_site : list (string * Response) :=
  [ ("https://example.test/",
     page 200 html "<a href='/logo.png?v=2'>logo</a>" "https://example.test/");
    ("https://example.test/logo.png",
     page 200 "image/png" "" "https://example.test/logo.png") ].

(** The seed links to two missing pages. *)
Definition thirds_site : list (string * Response) :=
  [ ("https://example.test/",
     page 200 html "<a href='/x'>x</a> <a href='/y'>y</a>" "https://example.test/") ].

(** The head of the loop on a fresh checker for [seed]. *)
Definition start (pages : Z) : Crawl :=
  {| checker := __init__ seed pages 0%float; pages_checked := 0 |}.

Definition refused : string := "Connection refused".

(** A checker for [seed] whose queue already holds four URLs. *)
Definition queue_of_four (pages : Z) : LinkChecker :=
  set_to_visit
    ["https://example.test/b"; "https://example.test/missing";
     "https://example.test/a"; "https://example.test/"]
    (__init__ seed pages 0%float).

(** The state a crawl of [site] from [seed] ends in, within [fuel] passes. *)
Definition final (refusal : string) (site : list (string * Response))
  (pages : Z) (fuel : nat) : option LinkChecker :=
  match crawl (serve refusal site) fuel (__init__ seed pages 0%float) with
  | Some (Return _, c) => Some (checker c)
  | _ => None
  end.



(** A machine that writes every report, and one whose disk refuses. *)
Definition desk : Host :=
  {| datetime_now := "2024-05-01T12:00:00"; json_dump := fun _ _ => None |}.


(** [link-checker.py https://example.test/ --max-pages 10 --delay 0
    --output report.json] *)
Definition command_line : Args :=
  {| arg_url := seed; arg_max_pages := 10; arg_delay := 0%float;
     arg_output := Some "report.json" |}.


End Scenario.

(** * Properties *)

(** ** Case analysis of the code *)

Section StepFacts.

Variable rt : Runtime.

Lemma len_app : forall (A : Type) (l1 l2 : list A),
  len (l1 ++ l2)%list = (len l1 + len l2)%Z.
Proof.
  intros A l1 l2. unfold len. rewrite List.length_app. lia.
Qed.

Lemma len_nil : forall A : Type, len (@nil A) = 0%Z.
Proof.
  reflexivity.
Qed.

Lemma len_nonneg : forall (A : Type) (l : list A), (0 <= len l)%Z.
Proof.
  intros A l. unfold len. lia.
Qed.

Lemma set_add_fresh : forall x s, mem x s = false -> set_add x s = (s ++ [x])%list.
Proof.
  intros x s H. unfold set_add. now rewrite H.
Qed.

(** [check_url] sends one request from its own call site and touches
    nothing else; what it returns depends on the session only. *)
Lemma check_url_effect : forall self url,
  snd (check_url rt self url) =
  set_session (session self ++ [{| req_site := InCheckUrl; req_url := url |}])%list self.
Proof.
  intros self url. unfold check_url, get.
  destruct (session_get rt (session self) _) as [response | []]; reflexivity.
Qed.

Lemma check_url_result : forall self url,
  fst (check_url rt self url) =
  match session_get rt (session self) {| req_site := InCheckUrl; req_url := url |} with
  | Return response =>
      Return {| r_url := url;
                r_status_code := Some (resp_status_code response);
                r_response_time := Some (resp_elapsed response);
                r_final_url := Some (resp_url response);
                r_content_type := Some (or_empty (resp_content_type response));
                r_error := None |}
  | Raise (RequestException msg) =>
      Return {| r_url := url; r_status_code := None;
                r_response_time := None; r_final_url := None;
                r_content_type := None; r_error := Some msg |}
  | Raise e => Raise e
  end.
Proof.
  intros self url. unfold check_url, get.
  destruct (session_get rt (session self) _) as [response | []]; reflexivity.
Qed.

(** The [try] block of [crawl] sends one request from the crawl's call
    site, may lengthen the queue, and touches nothing else. *)
Lemma extract_and_enqueue_effect : forall self url o self',
  extract_and_enqueue rt self url = (o, self') ->
  exists added,
    self' = set_to_visit (to_visit self ++ added)%list
              (set_session (session self ++ [{| req_site := InCrawl; req_url := url |}])%list self).
Proof.
  intros self url o self'. unfold extract_and_enqueue, get, enqueue_links.
  intros H. repeat break_match; inv H; simpl.
  - eexists. reflexivity.
  - exists []. rewrite List.app_nil_r. destruct self; reflexivity.
  - exists []. rewrite List.app_nil_r. destruct self; reflexivity.
Qed.

End StepFacts.

Section Passes.

Variable rt : Runtime.

Lemma rate_limit_inv : forall self n st c',
  rate_limit rt self n = (st, c') ->
  c' = {| checker := self; pages_checked := n |} /\ st <> Done.
Proof.
  intros self n st c'. unfold rate_limit.
  destruct (time_sleep rt (delay self)); intros H; inv H; split; congruence.
Qed.

(** The dictionary [check_url] returned goes to exactly one list, or the
    pass raised before it was recorded. *)
Lemma record_result_inv : forall self n u r st c',
  record_result rt self n u r = (st, c') ->
  exists extra added recs_b recs_v,
    c' = {| checker :=
              set_to_visit (to_visit self ++ added)%list
                (set_session (session self ++ extra)%list
                   (set_valid_links (valid_links self ++ recs_v)%list
                      (set_broken_links (broken_links self ++ recs_b)%list self)));
            pages_checked := n |} /\
    (extra = [] \/ extra = [{| req_site := InCrawl; req_url := u |}]) /\
    st <> Done /\
    ((recs_b = [] /\ recs_v = [] /\ exists e, st = Failed e) \/
     (exists x, recs_b = [x] /\ recs_v = []) \/
     (exists x, recs_b = [] /\ recs_v = [x])).
Proof.
  intros self n u r st c'. unfold record_result.
  destruct (truthy (r_error r)).
  - intros H. apply rate_limit_inv in H. destruct H as [-> Hst].
    exists [], [], [with_issue r ("Connection error: " ++ or_empty (r_error r))], [].
    repeat split; auto.
    + destruct self; simpl. now rewrite !List.app_nil_r.
    + right; left. eauto.
  - destruct (r_status_code r) as [code |].
    + destruct (code >=? 400)%Z.
      * intros H. apply rate_limit_inv in H. destruct H as [-> Hst].
        exists [], [], [with_issue r ("HTTP " ++ str_of_int code ++ " error")], [].
        repeat split; auto.
        -- destruct self; simpl. now rewrite !List.app_nil_r.
        -- right; left. eauto.
      * destruct (truthy (r_content_type r) &&
                  contains (or_empty (r_content_type r)) "text/html" &&
                  (code =? 200)%Z).
        -- destruct (extract_and_enqueue rt _ u) as [o self1] eqn:He.
           apply extract_and_enqueue_effect in He. destruct He as [added ->].
           intros H.
           exists [{| req_site := InCrawl; req_url := u |}], added, [],
                  [{| fetched := r; issue := None |}].
           assert (Hc : c' = {| checker :=
                      set_to_visit (to_visit self ++ added)%list
                        (set_session (session self ++ [{| req_site := InCrawl; req_url := u |}])%list
                           (set_valid_links (valid_links self ++ [{| fetched := r; issue := None |}])%list
                              (set_broken_links (broken_links self ++ [])%list self)));
                      pages_checked := n |} /\ st <> Done).
           { destruct o as [e |].
             - inv H. split; [| congruence].
               destruct self; simpl. now rewrite !List.app_nil_r.
             - apply rate_limit_inv in H. destruct H as [-> Hst]. split; auto.
               destruct self; simpl. now rewrite !List.app_nil_r. }
           destruct Hc as [-> Hst].
           repeat split; auto. right; right. eauto.
        -- intros H. apply rate_limit_inv in H. destruct H as [-> Hst].
           exists [], [], [], [{| fetched := r; issue := None |}].
           repeat split; auto.
           ++ destruct self; simpl. now rewrite !List.app_nil_r.
           ++ right; right. eauto.
    + intros H. inv H. exists [], [], [], [].
      repeat split; auto; try congruence.
      * destruct self; simpl. now rewrite !List.app_nil_r.
      * left. eauto.
Qed.

(** The three kinds of pass through the loop. *)
Lemma crawl_step_inv : forall c st c',
  crawl_step rt c = (st, c') ->
  (st = Done /\ c' = c /\
   (to_visit (checker c) = [] \/ (max_pages (checker c) <= pages_checked c)%Z)) \/
  (exists u rest,
     to_visit (checker c) = u :: rest /\
     (pages_checked c < max_pages (checker c))%Z /\
     mem u (visited (checker c)) = true /\
     st = Running /\
     c' = {| checker := set_to_visit rest (checker c);
             pages_checked := pages_checked c |}) \/
  (exists u rest extra added recs_b recs_v,
     to_visit (checker c) = u :: rest /\
     (pages_checked c < max_pages (checker c))%Z /\
     mem u (visited (checker c)) = false /\
     st <> Done /\
     counted_pass c u rest c' extra added recs_b recs_v /\
     ((recs_b = [] /\ recs_v = [] /\ exists e, st = Failed e) \/
      (exists x, recs_b = [x] /\ recs_v = []) \/
      (exists x, recs_b = [] /\ recs_v = [x]))).
Proof.
  intros c st c'. unfold crawl_step.
  destruct (to_visit (checker c)) as [| u rest] eqn:Hq.
  { intros H. inv H. left. auto. }
  destruct (pages_checked c <? max_pages (checker c))%Z eqn:Hlt.
  2:{ intros H. inv H. left. apply Z.ltb_ge in Hlt. auto. }
  apply Z.ltb_lt in Hlt.
  change (visited (set_to_visit rest (checker c))) with (visited (checker c)).
  destruct (mem u (visited (checker c))) eqn:Hm.
  { intros H. inv H. right; left. exists u, rest. auto. }
  rewrite (set_add_fresh _ _ Hm).
  intros H. right; right.
  destruct (check_url rt _ u) as [r self1] eqn:Hc.
  pose proof (check_url_effect rt
    (set_visited (visited (checker c) ++ [u])%list (set_to_visit rest (checker c))) u) as He.
  rewrite Hc in He. simpl in He. subst self1.
  destruct r as [r | e].
  - apply record_result_inv in H.
    destruct H as (extra & added & recs_b & recs_v & -> & Hx & Hst & Hr).
    exists u, rest, extra, added, recs_b, recs_v.
    repeat split; auto. simpl. now rewrite <- List.app_assoc.
  - inv H. exists u, rest, [], [], [], [].
    repeat split; simpl; auto; try congruence.
    + now rewrite !List.app_nil_r.
    + now rewrite !List.app_nil_r.
    + now rewrite !List.app_nil_r.
    + left. eauto.
Qed.

End Passes.

(** ** Invariants of the crawl loop *)

Section Invariants.

Variable rt : Runtime.

Lemma fetch_attempts_counted : forall c u rest c' extra added recs_b recs_v,
  counted_pass c u rest c' extra added recs_b recs_v ->
  fetch_attempts (checker c') = (fetch_attempts (checker c) + 1)%Z.
Proof.
  intros c u rest c' extra added recs_b recs_v H.
  destruct H as (_ & _ & _ & _ & _ & _ & Hs & Hx & _).
  unfold fetch_attempts. rewrite Hs, List.filter_app, len_app. simpl.
  destruct Hx as [-> | ->]; reflexivity.
Qed.

Lemma loop_invariant_start : forall self0,
  loop_invariant self0 {| checker := self0; pages_checked := 0 |}.
Proof.
  intros self0. unfold loop_invariant. simpl. repeat split; lia.
Qed.

Lemma loop_invariant_step : forall self0 c c',
  loop_invariant self0 c ->
  crawl_step rt c = (Running, c') ->
  loop_invariant self0 c'.
Proof.
  intros self0 c c' (Hm & Hf & Hv & Hr & H0 & Hb) Hs.
  apply crawl_step_inv in Hs.
  destruct Hs as [(Hd & _) | [(u & rest & _ & _ & _ & _ & ->) | Hs]].
  - discriminate.
  - unfold loop_invariant, fetch_attempts in *. simpl. auto 10.
  - destruct Hs as (u & rest & extra & added & recs_b & recs_v &
                    Hq & Hlt & Hmem & _ & Hp & Hrec).
    pose proof (fetch_attempts_counted _ _ _ _ _ _ _ _ Hp) as Hfa.
    destruct Hp as (Hpc & _ & Hmp & _ & Hvis & _ & _ & _ & Hbl & Hvl).
    unfold loop_invariant.
    rewrite Hpc, Hmp, Hfa, Hvis, Hbl, Hvl, !len_app.
    repeat split; try lia.
    + unfold len at 2. simpl. lia.
    + destruct Hrec as [(_ & _ & e & He) | [(x & -> & ->) | (x & -> & ->)]];
        [discriminate | |]; unfold len at 2 4; simpl; lia.
Qed.

Lemma reachable_invariant : forall self0 c,
  reachable rt self0 c -> loop_invariant self0 c.
Proof.
  intros self0 c H. induction H.
  - apply loop_invariant_start.
  - eapply loop_invariant_step; eassumption.
Qed.

(** The state a crawl returns in was at the head of the loop. *)
Lemma crawl_loop_returns_reachable : forall self0 fuel c c',
  reachable rt self0 c ->
  crawl_loop rt fuel c = Some (Return tt, c') ->
  reachable rt self0 c'.
Proof.
  intros self0 fuel. induction fuel as [| fuel IH]; intros c c' Hr H.
  - discriminate.
  - simpl in H. destruct (crawl_step rt c) as [[| | e] c1] eqn:Hs.
    + apply (IH c1 c'); [eapply reach_step; eassumption | assumption].
    + inv H. apply crawl_step_inv in Hs.
      destruct Hs as [(_ & -> & _) | [(u & rest & _ & _ & _ & Hd & _) | Hs]].
      * assumption.
      * discriminate.
      * destruct Hs as (u & rest & extra & added & recs_b & recs_v &
                        _ & _ & _ & Hd & _). congruence.
    + discriminate.
Qed.

(** However a crawl ends, the state it leaves follows a pass from a state
    at the head of the loop. *)
Lemma crawl_loop_ends_after_step : forall self0 fuel c r c',
  reachable rt self0 c ->
  crawl_loop rt fuel c = Some (r, c') ->
  exists c0 st, reachable rt self0 c0 /\ crawl_step rt c0 = (st, c').
Proof.
  intros self0 fuel. induction fuel as [| fuel IH]; intros c r c' Hr H.
  - discriminate.
  - simpl in H. destruct (crawl_step rt c) as [[| | e] c1] eqn:Hs.
    + apply (IH c1 r c'); [eapply reach_step; eassumption | assumption].
    + inv H. eauto.
    + inv H. eauto.
Qed.

(** C10: at every iteration boundary of the loop of a crawl started on a
    fresh checker, the number of pages checked equals the size of the
    visited set and equals the number of valid records plus the number of
    broken records; so the report of such a state, and of the state a crawl
    returns in, has [total_pages_checked] equal to [total_links_found]. *)
Theorem pages_checked_counts_visited_and_records :
  forall url pages d c,
    reachable rt (__init__ url pages d) c ->
    pages_checked c = len (visited (checker c)) /\
    pages_checked c =
      (len (valid_links (checker c)) + len (broken_links (checker c)))%Z /\
    (forall now,
       total_pages_checked (generate_report now (checker c)) =
       total_links_found (generate_report now (checker c))) /\
    (forall fuel c',
       crawl_loop rt fuel c = Some (Return tt, c') ->
       forall now,
         total_pages_checked (generate_report now (checker c')) =
         total_links_found (generate_report now (checker c'))).
Proof.
  intros url pages d c Hr.
  pose proof (reachable_invariant _ _ Hr) as (_ & _ & Hv & Hl & _).
  cbn [__init__ visited valid_links broken_links] in Hv, Hl.
  rewrite !len_nil in Hv, Hl.
  repeat split; try lia.
  - intros now. simpl. lia.
  - intros fuel c' Hc now.
    pose proof (crawl_loop_returns_reachable _ _ _ _ Hr Hc) as Hr'.
    pose proof (reachable_invariant _ _ Hr') as (_ & _ & Hv' & Hl' & _).
    cbn [__init__ visited valid_links broken_links] in Hv', Hl'.
    rewrite !len_nil in Hv', Hl'.
    simpl. lia.
Qed.

(** C2: for every seed, every budget [max_pages >= 0] and every content of
    the queue (of the whole object [self0], in fact, on which [crawl] is
    called), a crawl never makes more fetch attempts (calls of [check_url],
    each sending one request) than [max_pages]: not at the head of the
    loop, not after any pass, one that raised included, and not when it
    ends. *)
Theorem fetch_attempts_within_budget :
  forall self0 c,
    (0 <= max_pages self0)%Z ->
    reachable rt self0 c ->
    (fetch_attempts (checker c) - fetch_attempts self0 <= max_pages self0)%Z /\
    (forall st c',
       crawl_step rt c = (st, c') ->
       (fetch_attempts (checker c') - fetch_attempts self0 <= max_pages self0)%Z) /\
    (forall fuel r c',
       crawl_loop rt fuel c = Some (r, c') ->
       (fetch_attempts (checker c') - fetch_attempts self0 <= max_pages self0)%Z).
Proof.
  intros self0 c Hp Hr.
  assert (Hstep : forall c0 st c',
            reachable rt self0 c0 ->
            crawl_step rt c0 = (st, c') ->
            (fetch_attempts (checker c') - fetch_attempts self0 <= max_pages self0)%Z).
  { intros c0 st c' Hr0 Hs.
    pose proof (reachable_invariant _ _ Hr0) as (Hm & Hf & _ & _ & _ & Hb).
    apply crawl_step_inv in Hs.
    destruct Hs as [(_ & -> & _) | [(u & rest & _ & _ & _ & _ & ->) | Hs]].
    - lia.
    - unfold fetch_attempts in *. simpl. lia.
    - destruct Hs as (u & rest & extra & added & recs_b & recs_v &
                      _ & Hlt & _ & _ & Hc & _).
      rewrite (fetch_attempts_counted _ _ _ _ _ _ _ _ Hc). lia. }
  split; [| split].
  - pose proof (reachable_invariant _ _ Hr) as (_ & Hf & _ & _ & _ & Hb). lia.
  - intros st c'. apply Hstep. assumption.
  - intros fuel r c' Hc.
    destruct (crawl_loop_ends_after_step _ _ _ _ _ Hr Hc) as (c0 & st & Hr0 & Hs).
    eapply Hstep; eassumption.
Qed.

(** X6: the requests of a crawl, the second request for a page included,
    stay within twice the budget. *)
Lemma requests_within_twice_budget : forall self0 c,
  (0 <= max_pages self0)%Z ->
  reachable rt self0 c ->
  (len (session (checker c)) - len (session self0) <= 2 * max_pages self0)%Z.
Proof.
  intros self0 c Hp Hr.
  assert (H : (len (session (checker c)) - len (session self0)
               <= 2 * pages_checked c)%Z).
  { induction Hr as [| c c' Hr IH Hs].
    - simpl. lia.
    - apply crawl_step_inv in Hs.
      destruct Hs as [(Hd & _) | [(u & rest & _ & _ & _ & _ & ->) | Hs]].
      + discriminate.
      + simpl. assumption.
      + destruct Hs as (u & rest & extra & added & recs_b & recs_v &
                        _ & _ & _ & _ & Hc & _).
        destruct Hc as (Hpc & _ & _ & _ & _ & _ & Hs & Hx & _).
        rewrite Hs, Hpc, len_app.
        destruct Hx as [-> | ->]; unfold len at 2; cbn [List.length]; lia. }
  pose proof (reachable_invariant _ _ Hr) as (_ & _ & _ & _ & _ & Hb). lia.
Qed.

Lemma mem_In : forall x l, mem x l = true <-> In x l.
Proof.
  intros x l. unfold mem. rewrite existsb_exists. split.
  - intros (y & Hy & He). apply String.eqb_eq in He. now subst.
  - intros H. exists x. split; [assumption | apply String.eqb_refl].
Qed.


End Invariants.

(** ** Termination *)

Section Termination.

Variable rt : Runtime.

(** A pass that goes on either dropped a visited URL from the queue and
    left the counter alone, or raised the counter, which was below the
    budget. *)
Lemma crawl_step_progress : forall c c',
  crawl_step rt c = (Running, c') ->
  max_pages (checker c') = max_pages (checker c) /\
  ((pages_checked c' = pages_checked c /\
    S (List.length (to_visit (checker c'))) = List.length (to_visit (checker c))) \/
   (pages_checked c' = (pages_checked c + 1)%Z /\
    (pages_checked c < max_pages (checker c))%Z)).
Proof.
  intros c c' Hs. apply crawl_step_inv in Hs.
  destruct Hs as [(Hd & _) | [(u & rest & Hq & _ & _ & _ & ->) | Hs]].
  - discriminate.
  - simpl. rewrite Hq. auto.
  - destruct Hs as (u & rest & extra & added & recs_b & recs_v &
                    _ & Hlt & _ & _ & Hc & _).
    destruct Hc as (Hpc & _ & Hmp & _). auto.
Qed.

Lemma crawl_loop_terminates : forall n q c,
  (Z.to_nat (max_pages (checker c) - pages_checked c) <= n)%nat ->
  (List.length (to_visit (checker c)) <= q)%nat ->
  exists fuel out, crawl_loop rt fuel c = Some out.
Proof.
  induction n as [| n IHn].
  - induction q as [| q IHq]; intros c Hn Hq;
      destruct (crawl_step rt c) as [[| | e] c'] eqn:Hs;
      try (exists 1%nat; eexists; simpl; rewrite Hs; reflexivity).
    + destruct (crawl_step_progress _ _ Hs) as (_ & [(_ & Hl) | (_ & Hlt)]); lia.
    + destruct (crawl_step_progress _ _ Hs) as (Hmp & [(Hpc & Hl) | (_ & Hlt)]);
        [| lia].
      destruct (IHq c') as (fuel & out & Hf); [rewrite Hmp, Hpc; lia | lia |].
      exists (S fuel), out. simpl. rewrite Hs. assumption.
  - induction q as [| q IHq]; intros c Hn Hq;
      destruct (crawl_step rt c) as [[| | e] c'] eqn:Hs;
      try (exists 1%nat; eexists; simpl; rewrite Hs; reflexivity).
    + destruct (crawl_step_progress _ _ Hs) as (Hmp & [(_ & Hl) | (Hpc & Hlt)]);
        [lia |].
      destruct (IHn (List.length (to_visit (checker c'))) c') as (fuel & out & Hf);
        [rewrite Hmp, Hpc; lia | lia |].
      exists (S fuel), out. simpl. rewrite Hs. assumption.
    + destruct (crawl_step_progress _ _ Hs) as (Hmp & [(Hpc & Hl) | (Hpc & Hlt)]).
      * destruct (IHq c') as (fuel & out & Hf); [rewrite Hmp, Hpc; lia | lia |].
        exists (S fuel), out. simpl. rewrite Hs. assumption.
      * destruct (IHn (List.length (to_visit (checker c'))) c') as (fuel & out & Hf);
          [rewrite Hmp, Hpc; lia | lia |].
        exists (S fuel), out. simpl. rewrite Hs. assumption.
Qed.

(** More passes than a crawl needs change nothing. *)
Lemma crawl_loop_more_fuel : forall fuel extra c out,
  crawl_loop rt fuel c = Some out ->
  crawl_loop rt (fuel + extra) c = Some out.
Proof.
  induction fuel as [| fuel IH]; intros extra c out H.
  - discriminate.
  - simpl in *. destruct (crawl_step rt c) as [[| | e] c']; auto.
Qed.

(** C9: for every seed, every budget and every runtime (each request is
    answered, each extraction yields finitely many links), the loop of
    [crawl] ends, by leaving the loop or by an exception, after finitely
    many passes: a pass that does not fetch shortens the queue by one and
    leaves it otherwise alone, and a pass that fetches finds the counter
    below the budget and raises it by one. *)
Theorem crawl_terminates :
  forall self : LinkChecker,
    (exists fuel out, crawl rt fuel self = Some out) /\
    (forall c c',
       crawl_step rt c = (Running, c') ->
       (pages_checked c' = pages_checked c /\
        S (List.length (to_visit (checker c'))) = List.length (to_visit (checker c))) \/
       (pages_checked c' = (pages_checked c + 1)%Z /\
        (pages_checked c < max_pages (checker c))%Z)).
Proof.
  intros self. split.
  - unfold crawl. eapply crawl_loop_terminates; apply Nat.le_refl.
  - intros c c' Hs. apply (crawl_step_progress _ _ Hs).
Qed.

End Termination.

(** ** The fetcher *)

Section Fetcher.

Variable rt : Runtime.

(** C4: for every URL and every outcome of the request (a response, or a
    failure of the network, raised as a [RequestException]), [check_url]
    returns a dictionary and raises nothing, and exactly one of
    [status_code] and [error] is set in it: after a response [status_code]
    is the response's and [error] is [None]; after a failure [error] is the
    exception's message and [status_code], [response_time], [final_url] and
    [content_type] are all [None]. *)
Theorem check_url_returns_a_value :
  forall (self : LinkChecker) (url : string),
    fetch_outcome
      (session_get rt (session self) {| req_site := InCheckUrl; req_url := url |}) = true ->
    exists r,
      fst (check_url rt self url) = Return r /\
      r_url r = url /\
      (r_status_code r = None <-> r_error r <> None) /\
      match session_get rt (session self) {| req_site := InCheckUrl; req_url := url |} with
      | Return response =>
          r_status_code r = Some (resp_status_code response) /\
          r_error r = None
      | Raise e =>
          r_error r = Some (str_of_exn e) /\
          r_status_code r = None /\
          r_response_time r = None /\
          r_final_url r = None /\
          r_content_type r = None
      end.
Proof.
  intros self url Ho. rewrite check_url_result.
  destruct (session_get rt (session self) _) as [response | []];
    try discriminate; eexists; (split; [reflexivity |]); simpl;
    repeat split; auto; try congruence; intros H; try discriminate;
    exfalso; apply H; reflexivity.
Qed.

End Fetcher.

(** ** Classification of a fetched URL *)

Section Classification.

Variable rt : Runtime.

(** A pass that fetches hands the dictionary of [check_url] to the
    classification. *)
Lemma crawl_step_fetches : forall c u rest,
  to_visit (checker c) = u :: rest ->
  (pages_checked c < max_pages (checker c))%Z ->
  mem u (visited (checker c)) = false ->
  crawl_step rt c =
  let self :=
    set_session (session (checker c) ++ [{| req_site := InCheckUrl; req_url := u |}])%list
      (set_visited (visited (checker c) ++ [u])%list
         (set_to_visit rest (checker c))) in
  match fst (check_url rt (checker c) u) with
  | Raise e => (Failed e, {| checker := self; pages_checked := (pages_checked c + 1)%Z |})
  | Return r => record_result rt self (pages_checked c + 1)%Z u r
  end.
Proof.
  intros c u rest Hq Hlt Hm. unfold crawl_step. rewrite Hq.
  apply Z.ltb_lt in Hlt. rewrite Hlt.
  change (visited (set_to_visit rest (checker c))) with (visited (checker c)).
  rewrite Hm, (set_add_fresh _ _ Hm).
  destruct (check_url rt (set_visited _ _) u) as [r self1] eqn:Hc.
  pose proof (check_url_effect rt
    (set_visited (visited (checker c) ++ [u])%list (set_to_visit rest (checker c))) u) as He.
  pose proof (check_url_result rt
    (set_visited (visited (checker c) ++ [u])%list (set_to_visit rest (checker c))) u) as Hr.
  rewrite Hc in He, Hr. simpl in He, Hr. subst self1.
  rewrite check_url_result. simpl. rewrite <- Hr.
  destruct r; reflexivity.
Qed.

(** The two lists after the classification of a dictionary. *)
Lemma record_result_lists : forall self n u r st c',
  record_result rt self n u r = (st, c') ->
  (broken_links (checker c'), valid_links (checker c')) =
  if truthy (r_error r) then
    ((broken_links self ++
      [with_issue r ("Connection error: " ++ or_empty (r_error r))])%list,
     valid_links self)
  else
    match r_status_code r with
    | None => (broken_links self, valid_links self)
    | Some code =>
        if (code >=? 400)%Z then
          ((broken_links self ++
            [with_issue r ("HTTP " ++ str_of_int code ++ " error")])%list,
           valid_links self)
        else
          (broken_links self,
           (valid_links self ++ [{| fetched := r; issue := None |}])%list)
    end.
Proof.
  intros self n u r st c'. unfold record_result.
  destruct (truthy (r_error r)).
  - intros H. apply rate_limit_inv in H. destruct H as [-> _]. reflexivity.
  - destruct (r_status_code r) as [code |].
    + destruct (code >=? 400)%Z.
      * intros H. apply rate_limit_inv in H. destruct H as [-> _]. reflexivity.
      * destruct (truthy (r_content_type r) && _ && _).
        -- destruct (extract_and_enqueue rt _ u) as [o self1] eqn:He.
           apply extract_and_enqueue_effect in He. destruct He as [added ->].
           destruct o as [e |]; intros H.
           ++ inv H. reflexivity.
           ++ apply rate_limit_inv in H. destruct H as [-> _]. reflexivity.
        -- intros H. apply rate_limit_inv in H. destruct H as [-> _]. reflexivity.
    + intros H. inv H. reflexivity.
Qed.

(** C1, as the code has it: for every URL the loop fetches, with [r] the
    dictionary [check_url] returned, (1) if [r] has a non-empty error
    message, [r] with the issue "Connection error: <message>" (capital C) is
    appended to the broken list and the valid list is left alone; (2) if
    [r] has no error and its status code is at least 400, [r] with the
    issue "HTTP <code> error" is appended to the broken list and the valid
    list is left alone; (3) if [r] has no error and its status code is
    below 400, [r] is appended to the valid list and the broken list is
    left alone; (4) whatever [r] holds, the pass appends at most one record
    in all, so no record goes to both lists. *)
Theorem crawl_step_classifies :
  forall c u rest r st c',
    to_visit (checker c) = u :: rest ->
    (pages_checked c < max_pages (checker c))%Z ->
    mem u (visited (checker c)) = false ->
    fst (check_url rt (checker c) u) = Return r ->
    crawl_step rt c = (st, c') ->
    (forall msg,
       r_error r = Some msg -> msg <> "" ->
       broken_links (checker c') =
         (broken_links (checker c) ++ [with_issue r ("Connection error: " ++ msg)])%list /\
       valid_links (checker c') = valid_links (checker c)) /\
    (forall code,
       r_error r = None -> r_status_code r = Some code -> (code >= 400)%Z ->
       broken_links (checker c') =
         (broken_links (checker c) ++
          [with_issue r ("HTTP " ++ str_of_int code ++ " error")])%list /\
       valid_links (checker c') = valid_links (checker c)) /\
    (forall code,
       r_error r = None -> r_status_code r = Some code -> (code < 400)%Z ->
       valid_links (checker c') =
         (valid_links (checker c) ++ [{| fetched := r; issue := None |}])%list /\
       broken_links (checker c') = broken_links (checker c)) /\
    (exists recs_b recs_v,
       broken_links (checker c') = (broken_links (checker c) ++ recs_b)%list /\
       valid_links (checker c') = (valid_links (checker c) ++ recs_v)%list /\
       (recs_b = [] \/ recs_v = []) /\
       (List.length recs_b + List.length recs_v <= 1)%nat).
Proof.
  intros c u rest r st c' Hq Hlt Hm Hr Hs.
  assert (Hone : exists recs_b recs_v,
             broken_links (checker c') = (broken_links (checker c) ++ recs_b)%list /\
             valid_links (checker c') = (valid_links (checker c) ++ recs_v)%list /\
             (recs_b = [] \/ recs_v = []) /\
             (List.length recs_b + List.length recs_v <= 1)%nat).
  { pose proof (crawl_step_inv rt _ _ _ Hs) as Hi.
    destruct Hi as [(_ & _ & [Hd | Hd]) | [(u0 & rest0 & Hq0 & _ & Hm0 & _) | Hi]].
    - congruence.
    - lia.
    - congruence.
    - destruct Hi as (u0 & rest0 & extra & added & recs_b & recs_v &
                      _ & _ & _ & _ & Hc & Hrec).
      destruct Hc as (_ & _ & _ & _ & _ & _ & _ & _ & Hb & Hv).
      exists recs_b, recs_v. repeat split; try assumption;
        destruct Hrec as [(-> & -> & _) | [(x & -> & ->) | (x & -> & ->)]];
        simpl; auto. }
  rewrite (crawl_step_fetches _ _ _ Hq Hlt Hm), Hr in Hs. cbv zeta in Hs.
  apply record_result_lists in Hs. simpl in Hs.
  split; [| split; [| split; [| exact Hone]]].
  - intros msg He Hne. rewrite He in Hs. simpl in Hs.
    destruct (String.eqb_spec msg "") as [E | _]; [congruence |].
    simpl in Hs. inv Hs. auto.
  - intros code He Hc Hge. rewrite He, Hc in Hs. simpl in Hs.
    destruct (Z.geb_spec code 400) as [_ | Hn]; [| lia].
    inv Hs. auto.
  - intros code He Hc Hl. rewrite He, Hc in Hs. simpl in Hs.
    destruct (Z.geb_spec code 400) as [Hn | _]; [lia |].
    inv Hs. auto.
Qed.

End Classification.

(** ** The success rate of the report *)

(** C8, as the code has it: for every state, when the two lists together
    hold at least one record the success rate of the report is the float
    [(v / (v + b)) * 100], the quotient of the two counts rounded to a
    double and then multiplied by 100 and rounded again ([v] valid and [b]
    broken records); when both lists are empty it is the integer 0. *)
Theorem success_rate_is_rounded_percentage :
  forall (now : string) (self : LinkChecker),
    let v := len (valid_links self) in
    let b := len (broken_links self) in
    ((0 < v + b)%Z ->
     success_rate (generate_report now self) =
       Float (true_div v (v + b) * 100)%float) /\
    (valid_links self = [] /\ broken_links self = [] ->
     success_rate (generate_report now self) = Int 0).
Proof.
  intros now self v b. split.
  - intros Hpos. simpl. fold v b.
    destruct (Z.gtb_spec (v + b) 0) as [_ | Hn]; [reflexivity | lia].
  - intros [Hv Hb]. simpl. rewrite Hv, Hb. reflexivity.
Qed.

(** ** Strings *)

Section StringFacts.

Lemma append_nil_r : forall s : string, s ++ "" = s.
Proof.
  induction s as [| c s IH]; simpl; [reflexivity | now rewrite IH].
Qed.

Lemma append_assoc : forall a b c : string, (a ++ b) ++ c = a ++ (b ++ c).
Proof.
  induction a as [| x a IH]; intros b c; simpl; [reflexivity | now rewrite IH].
Qed.

Lemma forall_char_app : forall p a b,
  forall_char p (a ++ b) = forall_char p a && forall_char p b.
Proof.
  induction a as [| c a IH]; intros b; simpl; [reflexivity |].
  rewrite IH. now rewrite andb_assoc.
Qed.

Lemma forall_char_impl : forall (p q : ascii -> bool) s,
  (forall c, p c = true -> q c = true) ->
  forall_char p s = true -> forall_char q s = true.
Proof.
  intros p q s Hpq. induction s as [| c s IH]; simpl; [reflexivity |].
  intros H. apply andb_true_iff in H. destruct H as [Hc Hs].
  rewrite (Hpq _ Hc), (IH Hs). reflexivity.
Qed.

(** [span] cuts its argument in two, the first part within [p], the second
    starting outside of it. *)
Lemma span_append : forall p s, fst (span p s) ++ snd (span p s) = s.
Proof.
  intros p. induction s as [| c s IH]; simpl; [reflexivity |].
  destruct (p c); [| reflexivity].
  destruct (span p s) as [a b]. simpl in *. now rewrite IH.
Qed.

Lemma span_fst_forall : forall p s, forall_char p (fst (span p s)) = true.
Proof.
  intros p. induction s as [| c s IH]; simpl; [reflexivity |].
  destruct (p c) eqn:Hc; [| reflexivity].
  destruct (span p s) as [a b]. simpl in *. now rewrite Hc, IH.
Qed.

Lemma span_snd_head : forall p s c r, snd (span p s) = String c r -> p c = false.
Proof.
  intros p. induction s as [| x s IH]; simpl; intros c r H; [discriminate |].
  destruct (p x) eqn:Hx.
  - destruct (span p s) as [a b]. simpl in *. eapply IH. eassumption.
  - simpl in H. congruence.
Qed.

Lemma span_forall : forall p s, forall_char p s = true -> span p s = (s, "").
Proof.
  intros p. induction s as [| c s IH]; simpl; [reflexivity |].
  intros H. apply andb_true_iff in H. destruct H as [Hc Hs].
  now rewrite Hc, (IH Hs).
Qed.

(** A character outside [p] stops [span] where it stands, whatever
    follows it. *)
Lemma span_app_stop : forall p x d y,
  p d = false ->
  span p (x ++ String d y) = (fst (span p x), snd (span p x) ++ String d y).
Proof.
  intros p x d y Hd. induction x as [| c x IH]; simpl.
  - now rewrite Hd.
  - destruct (p c); [| reflexivity].
    rewrite IH. destruct (span p x) as [a b]. reflexivity.
Qed.

Lemma span_app_forall : forall p a b,
  forall_char p a = true ->
  span p (a ++ b) = (a ++ fst (span p b), snd (span p b)).
Proof.
  intros p a b. induction a as [| c a IH]; simpl.
  - intros _. now destruct (span p b).
  - intros H. apply andb_true_iff in H. destruct H as [Hc Ha].
    rewrite Hc, (IH Ha). reflexivity.
Qed.

(** What [span] leaves is empty or starts outside [p], so it is cut in the
    same place when text is added after it. *)
Lemma span_app_nonempty : forall p x y,
  snd (span p x) <> "" ->
  span p (x ++ y) = (fst (span p x), snd (span p x) ++ y).
Proof.
  intros p x y. induction x as [| c x IH]; simpl.
  - intros H. now contradiction H.
  - destruct (p c); [| reflexivity].
    destruct (span p x) as [a b] eqn:E. simpl in *.
    intros H. now rewrite (IH H).
Qed.

Lemma span_span_and : forall p q s,
  fst (span q (fst (span p s))) = fst (span (fun c => p c && q c) s).
Proof.
  intros p q. induction s as [| c s IH]; simpl; [reflexivity |].
  destruct (p c); simpl; [| reflexivity].
  destruct (span p s) as [a b]. simpl in *.
  destruct (q c); [| reflexivity].
  destruct (span q a) as [a1 a2]. simpl in *.
  destruct (span (fun c0 => p c0 && q c0) s) as [e1 e2]. simpl in *.
  now rewrite IH.
Qed.

Lemma lstrip_app : forall p x d y,
  p d = false -> lstrip p (x ++ String d y) = lstrip p x ++ String d y.
Proof.
  intros p x d y Hd. induction x as [| c x IH]; simpl.
  - now rewrite Hd.
  - destruct (p c); [assumption | reflexivity].
Qed.

Lemma lstrip_head : forall p c s, p c = false -> lstrip p (String c s) = String c s.
Proof.
  intros p c s H. simpl. now rewrite H.
Qed.

Lemma remove_app : forall p a b, remove p (a ++ b) = remove p a ++ remove p b.
Proof.
  intros p. induction a as [| c a IH]; intros b; simpl; [reflexivity |].
  rewrite IH. now destruct (p c).
Qed.

Lemma remove_forall : forall p s, forall_char (fun c => negb (p c)) (remove p s) = true.
Proof.
  intros p. induction s as [| c s IH]; simpl; [reflexivity |].
  destruct (p c) eqn:Hc; simpl; [assumption |].
  now rewrite Hc, IH.
Qed.

Lemma remove_none : forall p s,
  forall_char (fun c => negb (p c)) s = true -> remove p s = s.
Proof.
  intros p. induction s as [| c s IH]; simpl; [reflexivity |].
  intros H. apply andb_true_iff in H. destruct H as [Hc Hs].
  apply negb_true_iff in Hc. now rewrite Hc, (IH Hs).
Qed.

Lemma startswith_app : forall a b, startswith (a ++ b) a = true.
Proof.
  induction a as [| c a IH]; intros b; simpl; [reflexivity |].
  now rewrite Ascii.eqb_refl, IH.
Qed.

End StringFacts.

(** ** [urlsplit] and what follows a [?] or a [#] *)

Section QueryAndFragment.

Variable rt : Runtime.

Lemma mark_cases : forall d, is_mark d = true -> d = "?"%char \/ d = "#"%char.
Proof.
  intros d H. unfold is_mark in H. apply orb_true_iff in H.
  destruct H as [H | H]; apply Ascii.eqb_eq in H; auto.
Qed.

Lemma partition_fst : forall c s,
  fst (partition c s) = fst (span (fun x => negb (Ascii.eqb x c)) s).
Proof.
  intros c s. unfold partition.
  destruct (span _ s) as [a [| x b]]; reflexivity.
Qed.

Lemma split_tail_fields : forall sch n url,
  split_scheme (split_tail sch n url) = sch /\
  split_netloc (split_tail sch n url) = n /\
  split_path (split_tail sch n url) = fst (span path_char url).
Proof.
  intros sch n url. unfold split_tail.
  pose proof (partition_fst "#" url) as H1.
  destruct (partition "#" url) as [u1 frag]. simpl in H1.
  pose proof (partition_fst "?" u1) as H2.
  destruct (partition "?" u1) as [u2 qry]. simpl in H2. simpl.
  repeat split. subst u1 u2. apply span_span_and.
Qed.

Lemma take_scheme_app_mark : forall x d y default,
  is_mark d = true ->
  take_scheme (x ++ String d y) default =
  (fst (take_scheme x default), snd (take_scheme x default) ++ String d y).
Proof.
  intros x d y default Hd. unfold take_scheme, partition.
  set (p := fun c => negb (Ascii.eqb c ":")).
  assert (Hpd : p d = true) by (destruct (mark_cases _ Hd); subst; reflexivity).
  assert (Hsd : is_scheme_char d = false) by (destruct (mark_cases _ Hd); subst; reflexivity).
  destruct (snd (span p x)) as [| c b] eqn:Hb.
  - (* no colon in [x] *)
    pose proof (span_append p x) as Hx. rewrite Hb, append_nil_r in Hx.
    pose proof (span_fst_forall p x) as Hall. rewrite Hx in Hall.
    rewrite (span_app_forall _ _ _ Hall), (span_forall _ _ Hall).
    simpl. rewrite Hpd.
    destruct (span p y) as [a2 b2]. simpl.
    destruct b2 as [| c2 b2]; [now destruct x |].
    destruct (x ++ String d a2) as [| c0 pre] eqn:E; [now destruct x |].
    assert (Hf : forall_char is_scheme_char (String c0 pre) = false).
    { rewrite <- E, forall_char_app. simpl. rewrite Hsd.
      now rewrite andb_false_r. }
    cbn [forall_char] in Hf. rewrite Hf, andb_false_r. now destruct x.
  - (* a colon in [x] *)
    assert (Hne : snd (span p x) <> "") by (rewrite Hb; discriminate).
    rewrite (span_app_nonempty _ _ (String d y) Hne), Hb.
    destruct (span p x) as [a b0]. simpl in *. subst b0.
    destruct a as [| c0 pre]; [reflexivity |].
    destruct (isalpha_ascii c0 && _); reflexivity.
Qed.

Lemma startswith_slashes_app_mark : forall x d y,
  is_mark d = true ->
  startswith (x ++ String d y) "//" = startswith x "//".
Proof.
  intros x d y Hd.
  assert (Hs : Ascii.eqb d "/" = false) by (destruct (mark_cases _ Hd); subst; reflexivity).
  destruct x as [| c1 [| c2 x]]; simpl.
  - now rewrite Hs.
  - rewrite Hs. reflexivity.
  - reflexivity.
Qed.

Lemma location_split_tail_app_mark : forall sch n url d y,
  is_mark d = true ->
  location (split_tail sch n (url ++ String d y)) = location (split_tail sch n url).
Proof.
  intros sch n url d y Hd. unfold location.
  destruct (split_tail_fields sch n (url ++ String d y)) as (-> & -> & ->).
  destruct (split_tail_fields sch n url) as (-> & -> & ->).
  assert (Hp : path_char d = false) by (destruct (mark_cases _ Hd); subst; reflexivity).
  now rewrite (span_app_stop _ _ _ _ Hp).
Qed.

(** What follows a [?] or a [#] has no part in the scheme, the authority
    and the path [urlsplit] finds, nor in whether it raises. *)
Lemma urlsplit_app_mark : forall b d q default,
  is_mark d = true ->
  (r <- urlsplit rt (b ++ String d q) default ;; Return (location r)) =
  (r <- urlsplit rt b default ;; Return (location r)).
Proof.
  intros b d q default Hd. unfold urlsplit.
  assert (Hc0 : is_c0_or_space d = false) by (destruct (mark_cases _ Hd); subst; reflexivity).
  assert (Hun : is_unsafe_byte d = false) by (destruct (mark_cases _ Hd); subst; reflexivity).
  assert (Hnd : negb (is_netloc_delim d) = false) by (destruct (mark_cases _ Hd); subst; reflexivity).
  rewrite (lstrip_app _ _ _ _ Hc0), remove_app. simpl remove at 2. rewrite Hun.
  rewrite (take_scheme_app_mark _ _ _ _ Hd).
  destruct (take_scheme (remove is_unsafe_byte (lstrip is_c0_or_space b)) _) as [sch url].
  cbn [fst snd]. rewrite (startswith_slashes_app_mark _ _ _ Hd).
  destruct (startswith url "//") eqn:Hs.
  - destruct url as [| c1 [| c2 url]];
      [discriminate | simpl in Hs; rewrite andb_false_r in Hs; discriminate |].
    cbn [_splitnetloc append]. rewrite (span_app_stop _ _ _ _ Hnd).
    destruct (span _ url) as [n rest]. cbn [fst snd].
    destruct (netloc_brackets_ok rt n); [| reflexivity].
    cbn [bind]. now rewrite (location_split_tail_app_mark _ _ _ _ _ Hd).
  - cbn [bind]. now rewrite (location_split_tail_app_mark _ _ _ _ _ Hd).
Qed.

Lemma canonicalize_location : forall url,
  canonicalize rt url =
  (l <- (r <- urlsplit rt url "" ;; Return (location r)) ;; Return (canonical_of l)).
Proof.
  intros url. unfold canonicalize, urlparse, urlparse_default.
  destruct (urlsplit rt url "") as [r | e]; [| reflexivity].
  cbn [bind]. unfold location, canonical_of, clean_url.
  destruct (mem (split_scheme r) uses_params); [| reflexivity].
  destruct (_splitparams (split_path r)); reflexivity.
Qed.

Lemma canonicalize_app_mark : forall b d q,
  is_mark d = true ->
  canonicalize rt (b ++ String d q) = canonicalize rt b.
Proof.
  intros b d q Hd.
  now rewrite !canonicalize_location, (urlsplit_app_mark _ _ _ _ Hd).
Qed.

End QueryAndFragment.

(** ** Characters *)

Section CharFacts.

Ltac by_cases_on c :=
  destruct c as [[] [] [] [] [] [] [] []]; vm_compute; intuition congruence.

Lemma lower_char_idem : forall c, lower_char (lower_char c) = lower_char c.
Proof. intros c. by_cases_on c. Qed.

Lemma scheme_char_lower : forall c,
  is_scheme_char c = true -> is_scheme_char (lower_char c) = true.
Proof. intros c. by_cases_on c. Qed.

Lemma alpha_lower : forall c,
  isalpha_ascii c = true -> isalpha_ascii (lower_char c) = true.
Proof. intros c. by_cases_on c. Qed.

Lemma scheme_char_plain : forall c,
  is_scheme_char c = true ->
  negb (Ascii.eqb c ":") = true /\
  is_c0_or_space c = false /\
  negb (is_unsafe_byte c) = true.
Proof. intros c. by_cases_on c. Qed.

Lemma alpha_scheme_char : forall c, isalpha_ascii c = true -> is_scheme_char c = true.
Proof. intros c. by_cases_on c. Qed.

Lemma netloc_char_path_char : forall c,
  negb (is_netloc_delim c) = true -> path_char c = true.
Proof. intros c. by_cases_on c. Qed.

Lemma path_char_delim_slash : forall c,
  path_char c = true -> negb (is_netloc_delim c) = false -> c = "/"%char.
Proof. intros c. by_cases_on c. Qed.

Lemma path_char_marks : forall c,
  path_char c = true ->
  negb (Ascii.eqb c "#") = true /\ negb (Ascii.eqb c "?") = true.
Proof. intros c. by_cases_on c. Qed.

Lemma lower_idem : forall s, lower (lower s) = lower s.
Proof.
  induction s as [| c s IH]; simpl; [reflexivity |].
  now rewrite lower_char_idem, IH.
Qed.

Lemma forall_scheme_char_lower : forall s,
  forall_char is_scheme_char s = true ->
  forall_char is_scheme_char (lower s) = true.
Proof.
  induction s as [| c s IH]; simpl; [reflexivity |].
  intros H. apply andb_true_iff in H. destruct H as [Hc Hs].
  now rewrite (scheme_char_lower _ Hc), (IH Hs).
Qed.

End CharFacts.

(** ** [_splitparams] *)

Section Params.

Lemma append_cancel_l : forall a b c : string, a ++ b = a ++ c -> b = c.
Proof.
  induction a as [| x a IH]; simpl; intros b c H; [assumption |].
  inversion H. auto.
Qed.

Lemma append_length : forall a b : string,
  String.length (a ++ b) = (String.length a + String.length b)%nat.
Proof.
  induction a as [| x a IH]; intros b; simpl; [reflexivity | now rewrite IH].
Qed.

Lemma partition_some : forall c s a b,
  partition c s = (a, Some b) ->
  s = a ++ String c b /\ forall_char (not_char c) a = true.
Proof.
  intros c s a b. unfold partition.
  pose proof (span_append (not_char c) s) as Hs.
  pose proof (span_fst_forall (not_char c) s) as Ha.
  pose proof (span_snd_head (not_char c) s) as Hh.
  fold (not_char c). destruct (span (not_char c) s) as [a0 [| x b0]]; simpl in *.
  - discriminate.
  - intros H. inv H. specialize (Hh x b eq_refl).
    unfold not_char in Hh. apply negb_false_iff, Ascii.eqb_eq in Hh. subst x.
    auto.
Qed.

Lemma partition_none : forall c s,
  forall_char (not_char c) s = true -> partition c s = (s, None).
Proof.
  intros c s H. unfold partition. fold (not_char c).
  now rewrite (span_forall _ _ H).
Qed.

Lemma partition_none_inv : forall c s a,
  partition c s = (a, None) -> a = s /\ forall_char (not_char c) s = true.
Proof.
  intros c s a. unfold partition.
  pose proof (span_append (not_char c) s) as Hs.
  pose proof (span_fst_forall (not_char c) s) as Ha.
  fold (not_char c). destruct (span (not_char c) s) as [a0 [| x b0]]; simpl in *.
  - intros H. inv H. rewrite append_nil_r. auto.
  - discriminate.
Qed.

Lemma rbreak_append : forall c s, fst (rbreak c s) ++ snd (rbreak c s) = s.
Proof.
  intros c. induction s as [| x s IH]; simpl; [reflexivity |].
  destruct (rbreak c s) as [[| y h] t]; simpl in *.
  - destruct (Ascii.eqb x c); simpl; now rewrite IH.
  - now rewrite IH.
Qed.

Lemma rbreak_snd_free : forall c s,
  forall_char (not_char c) (snd (rbreak c s)) = true.
Proof.
  intros c. induction s as [| x s IH]; simpl; [reflexivity |].
  destruct (rbreak c s) as [[| y h] t]; simpl in *.
  - destruct (Ascii.eqb x c) eqn:Hx; simpl; [assumption |].
    unfold not_char at 1. now rewrite Hx.
  - assumption.
Qed.

Lemma rbreak_free : forall c s,
  forall_char (not_char c) s = true -> rbreak c s = ("", s).
Proof.
  intros c. induction s as [| x s IH]; simpl; [reflexivity |].
  intros H. apply andb_true_iff in H. destruct H as [Hx Hs].
  rewrite (IH Hs). unfold not_char in Hx. apply negb_true_iff in Hx.
  now rewrite Hx.
Qed.

Lemma rbreak_head : forall c s, fst (rbreak c (String c s)) <> "".
Proof.
  intros c s. simpl. destruct (rbreak c s) as [[| y h] t]; simpl.
  - rewrite Ascii.eqb_refl. discriminate.
  - discriminate.
Qed.

(** The head [rbreak] finds is found again when text without the
    separator replaces the tail. *)
Lemma rbreak_fst_app : forall c s a,
  forall_char (not_char c) a = true ->
  rbreak c (fst (rbreak c s) ++ a) = (fst (rbreak c s), a).
Proof.
  intros c s a Ha. induction s as [| x s IH]; simpl.
  - apply rbreak_free. assumption.
  - destruct (rbreak c s) as [[| y h] t]; simpl in *.
    + destruct (Ascii.eqb x c) eqn:Hx; simpl.
      * rewrite (rbreak_free _ _ Ha). now rewrite Hx.
      * apply rbreak_free. assumption.
    + rewrite IH. reflexivity.
Qed.

Lemma rbreak_app_r : forall c x y,
  fst (rbreak c y) <> "" ->
  rbreak c (x ++ y) = (x ++ fst (rbreak c y), snd (rbreak c y)).
Proof.
  intros c x y Hy. induction x as [| x0 x IH]; simpl.
  - now destruct (rbreak c y).
  - rewrite IH. destruct (x ++ fst (rbreak c y)) as [| z w] eqn:E; [| reflexivity].
    destruct x; simpl in E; [contradiction | discriminate].
Qed.

(** What [_splitparams] keeps as the path is a prefix of its argument,
    with nothing more to split off. *)
Lemma splitparams_prefix : forall x, exists z, x = fst (_splitparams x) ++ z.
Proof.
  intros x. unfold _splitparams.
  pose proof (rbreak_append "/" x) as Hx.
  destruct (rbreak "/" x) as [h t]. simpl in Hx.
  destruct (partition ";" t) as [a [b |]] eqn:Hp; simpl.
  - apply partition_some in Hp. destruct Hp as [-> _].
    exists (String ";" b). now rewrite append_assoc.
  - exists "". now rewrite append_nil_r.
Qed.

Lemma splitparams_idem : forall x,
  _splitparams (fst (_splitparams x)) = (fst (_splitparams x), "").
Proof.
  intros x. unfold _splitparams at 2 3.
  pose proof (rbreak_snd_free "/" x) as Ht.
  pose proof (rbreak_fst_app "/" x) as Hh.
  destruct (rbreak "/" x) as [h t] eqn:Hr. simpl in Ht, Hh.
  destruct (partition ";" t) as [a [b |]] eqn:Hp; simpl.
  - apply partition_some in Hp. destruct Hp as [-> Ha].
    rewrite forall_char_app in Ht. apply andb_true_iff in Ht. destruct Ht as [Hta _].
    unfold _splitparams. rewrite (Hh a Hta), (partition_none _ _ Ha). reflexivity.
  - unfold _splitparams. rewrite Hr, Hp. reflexivity.
Qed.

(** A path with nothing to split off keeps that property when a first
    segment is taken away. *)
Lemma splitparams_drop_segment : forall a w,
  forall_char (not_char "/") a = true ->
  _splitparams (a ++ String "/" w) = (a ++ String "/" w, "") ->
  _splitparams (String "/" w) = (String "/" w, "").
Proof.
  intros a w Ha. unfold _splitparams.
  rewrite (rbreak_app_r "/" a (String "/" w) (rbreak_head "/" w)).
  pose proof (rbreak_append "/" (String "/" w)) as Hx.
  destruct (rbreak "/" (String "/" w)) as [h t]. cbn [fst snd] in *.
  destruct (partition ";" t) as [a1 [b |]] eqn:Hp; [| reflexivity].
  intros H. exfalso. inv H.
  apply partition_some in Hp. destruct Hp as [Ht _].
  rewrite <- Hx, append_assoc in H1.
  apply append_cancel_l, append_cancel_l in H1.
  rewrite Ht in H1. apply (f_equal String.length) in H1.
  rewrite append_length in H1. simpl in H1. lia.
Qed.

End Params.

(** ** [urlparse] on a canonical form *)

Section Canonical.

Variable rt : Runtime.

Lemma take_scheme_inv : forall url s url2,
  take_scheme url "" = (s, url2) ->
  s <> "" ->
  scheme_shaped s /\ exists pre, url = pre ++ String ":" url2.
Proof.
  intros url s url2. unfold take_scheme.
  destruct (partition ":" url) as [[| c0 pre] [rest |]] eqn:Hp;
    try (intros H; inv H; congruence).
  destruct (isalpha_ascii c0 && forall_char is_scheme_char (String c0 pre)) eqn:Hc;
    [| intros H; inv H; congruence].
  intros H _. inv H. apply andb_true_iff in Hc. destruct Hc as [Ha Hf].
  apply partition_some in Hp. destruct Hp as [-> _].
  split; [| eauto].
  split; [| split].
  - exists (lower_char c0), (lower pre). split; [reflexivity |].
    now apply alpha_lower.
  - now apply (forall_scheme_char_lower (String c0 pre)).
  - apply (lower_idem (String c0 pre)).
Qed.

Lemma take_scheme_none : forall url url2,
  take_scheme url "" = ("", url2) -> url2 = url.
Proof.
  intros url url2. unfold take_scheme.
  destruct (partition ":" url) as [[| c0 pre] [rest |]];
    try (intros H; inv H; reflexivity).
  destruct (isalpha_ascii c0 && _); intros H; inv H. reflexivity.
Qed.

Lemma take_scheme_safe : forall url s url2,
  take_scheme url "" = (s, url2) ->
  forall_char safe_char url = true ->
  forall_char safe_char url2 = true.
Proof.
  intros url s url2 H Hs.
  destruct (String.eqb_spec s "") as [-> | Hne].
  - now rewrite (take_scheme_none _ _ H).
  - destruct (take_scheme_inv _ _ _ H Hne) as (_ & pre & ->).
    rewrite forall_char_app in Hs. apply andb_true_iff in Hs.
    destruct Hs as [_ Hs]. exact Hs.
Qed.

Lemma prefix_forall : forall p a z, forall_char p (a ++ z) = true -> forall_char p a = true.
Proof.
  intros p a z H. rewrite forall_char_app in H.
  now apply andb_true_iff in H.
Qed.

Lemma span_path_char_rest : forall rest,
  (rest = "" \/ exists d y, rest = String d y /\ netloc_char d = false) ->
  fst (span path_char rest) = "" \/
  exists w, fst (span path_char rest) = String "/" w.
Proof.
  intros rest [-> | (d & y & -> & Hd)]; [now left |].
  simpl. destruct (path_char d) eqn:Hp; [| now left].
  right. rewrite (path_char_delim_slash _ Hp Hd).
  destruct (span path_char y) as [a b]. simpl. eauto.
Qed.

Lemma splitparams_keeps_slash : forall w,
  exists w', fst (_splitparams (String "/" w)) = String "/" w'.
Proof.
  intros w. unfold _splitparams.
  pose proof (rbreak_append "/" (String "/" w)) as Hx.
  pose proof (rbreak_head "/" w) as Hh.
  destruct (rbreak "/" (String "/" w)) as [[| x h] t]; simpl in *.
  - congruence.
  - inv Hx. destruct (partition ";" t) as [a [b |]]; simpl; eauto.
Qed.

Lemma urlparse_parts : forall url r,
  urlparse rt url = Return r ->
  (scheme r <> "" -> scheme_shaped (scheme r)) /\ parsed_parts rt r.
Proof.
  intros url r. unfold urlparse, urlparse_default, urlsplit.
  set (url1 := remove is_unsafe_byte (lstrip is_c0_or_space url)).
  assert (Hsafe1 : forall_char safe_char url1 = true) by apply remove_forall.
  cbn [strip rstrip lstrip remove].
  destruct (take_scheme url1 "") as [s url2] eqn:Hts.
  pose proof (take_scheme_safe _ _ _ Hts Hsafe1) as Hsafe2.
  assert (Hsh : s <> "" -> scheme_shaped s).
  { intros Hne. now destruct (take_scheme_inv _ _ _ Hts Hne). }
  assert (Hgoal : forall n rest,
            forall_char safe_char (n ++ rest) = true ->
            forall_char netloc_char n = true ->
            (n = "" \/ (netloc_brackets_ok rt n = true /\
                        (rest = "" \/ exists d y, rest = String d y /\ netloc_char d = false))) ->
            forall r0,
              (r1 <- Return (split_tail s n rest) ;;
               (let (p, prm) := if mem (split_scheme r1) uses_params
                                then _splitparams (split_path r1)
                                else (split_path r1, "") in
                Return {| scheme := split_scheme r1; netloc := split_netloc r1;
                          path := p; params := prm; query := split_query r1;
                          fragment := split_fragment r1 |})) = Return r0 ->
              (scheme r0 <> "" -> scheme_shaped (scheme r0)) /\ parsed_parts rt r0).
  { intros n rest Hs Hn Hcase r0. cbn [bind].
    destruct (split_tail_fields s n rest) as (-> & -> & ->).
    set (path0 := fst (span path_char rest)).
    assert (Hp0 : forall_char path_char path0 = true) by apply span_fst_forall.
    assert (Hs0 : forall_char safe_char (n ++ path0) = true).
    { rewrite forall_char_app in *. apply andb_true_iff in Hs. destruct Hs as [Hsn Hsr].
      rewrite Hsn. simpl. apply (prefix_forall _ _ (snd (span path_char rest))).
      unfold path0. now rewrite span_append. }
    assert (Hhead : n = "" \/ (netloc_brackets_ok rt n = true /\
                               (path0 = "" \/ exists w, path0 = String "/" w))).
    { destruct Hcase as [-> | [Hok Hrest]]; [now left | right].
      split; [assumption |]. now apply span_path_char_rest. }
    destruct (mem s uses_params) eqn:Hup.
    - destruct (splitparams_prefix path0) as [z Hz].
      pose proof (splitparams_idem path0) as Hidem.
      destruct (_splitparams path0) as [p prm] eqn:Hsp. cbn [fst] in *.
      intros H. inv H. cbn [scheme]. split; [assumption |].
      unfold parsed_parts. cbn [netloc path scheme].
      repeat split.
      + rewrite Hz, <- append_assoc in Hs0. now apply prefix_forall in Hs0.
      + assumption.
      + rewrite Hz in Hp0. now apply prefix_forall in Hp0.
      + intros _. assumption.
      + destruct Hhead as [-> | [Hok [H0 | [w Hw]]]]; [now left | right | right];
          (split; [assumption |]).
        * left. rewrite H0 in Hsp. vm_compute in Hsp. congruence.
        * right. destruct (splitparams_keeps_slash w) as [w' Hw'].
          rewrite <- Hw, Hsp in Hw'. eauto.
    - intros H. inv H. cbn [scheme]. split; [assumption |].
      unfold parsed_parts. cbn [netloc path scheme].
      repeat split; auto. congruence. }
  destruct (startswith url2 "//") eqn:Hss.
  - destruct url2 as [| c1 [| c2 y]];
      [discriminate | simpl in Hss; rewrite andb_false_r in Hss; discriminate |].
    cbn [_splitnetloc].
    pose proof (span_append netloc_char y) as Hy.
    pose proof (span_fst_forall netloc_char y) as Hn.
    pose proof (span_snd_head netloc_char y) as Hh.
    fold netloc_char. destruct (span netloc_char y) as [n rest]. cbn [fst snd] in *.
    destruct (netloc_brackets_ok rt n) eqn:Hok; [| discriminate].
    cbn [bind]. intros H. apply (Hgoal n rest); [| exact Hn | | exact H].
    + rewrite Hy. simpl in Hsafe2.
      apply andb_true_iff in Hsafe2. destruct Hsafe2 as [_ Hsafe2].
      now apply andb_true_iff in Hsafe2.
    + right. split; [exact Hok |].
      destruct rest as [| d y0]; [now left | right].
      exists d, y0. split; [reflexivity |]. now apply (Hh d y0).
  - cbn [bind]. intros H. apply (Hgoal "" url2); auto.
Qed.

End Canonical.

Section Idempotence.

Variable rt : Runtime.

(** [urlparse] on a scheme, [://] and text without [?], [#] and unsafe
    bytes: the text is cut at its first slash into authority and path, and
    the parse raises exactly when the authority fails the bracket test. *)
Lemma urlparse_canonical : forall s x,
  scheme_shaped s ->
  forall_char safe_char x = true ->
  forall_char path_char x = true ->
  (mem s uses_params = true ->
   _splitparams (snd (span netloc_char x)) = (snd (span netloc_char x), "")) ->
  urlparse rt (s ++ "://" ++ x) =
  if netloc_brackets_ok rt (fst (span netloc_char x))
  then Return {| scheme := s; netloc := fst (span netloc_char x);
                 path := snd (span netloc_char x); params := "";
                 query := ""; fragment := "" |}
  else Raise (ValueError "Invalid IPv6 URL").
Proof.
  intros s x ((c0 & s0 & Hs & Hal) & Hsc & Hlow) Hsafe Hpath Hprm.
  unfold urlparse, urlparse_default, urlsplit.
  cbn [strip rstrip lstrip remove].
  assert (Hc0 : is_c0_or_space c0 = false).
  { now destruct (scheme_char_plain _ (alpha_scheme_char _ Hal)) as (_ & ? & _). }
  assert (Hall : forall_char safe_char (s ++ "://" ++ x) = true).
  { rewrite forall_char_app.
    rewrite (forall_char_impl is_scheme_char safe_char s); [| | assumption].
    - simpl. assumption.
    - intros c Hc. now destruct (scheme_char_plain _ Hc) as (_ & _ & ?). }
  assert (Hcolon : forall_char (not_char ":") s = true).
  { apply (forall_char_impl is_scheme_char); [| assumption].
    intros c Hc. now destruct (scheme_char_plain _ Hc) as (? & _). }
  replace (lstrip is_c0_or_space (s ++ "://" ++ x)) with (s ++ "://" ++ x)
    by (rewrite Hs; simpl; now rewrite Hc0).
  rewrite (remove_none _ _ Hall).
  assert (Hts : take_scheme (s ++ "://" ++ x) "" = (s, "//" ++ x)).
  { unfold take_scheme, partition. fold (not_char ":").
    change (s ++ "://" ++ x) with (s ++ String ":" ("//" ++ x)).
    rewrite (span_app_stop (not_char ":") s ":" ("//" ++ x) eq_refl).
    rewrite (span_forall _ _ Hcolon). cbn [fst snd append].
    rewrite Hs in *. rewrite Hal, Hsc. cbn [andb]. now rewrite Hlow. }
  rewrite Hts. cbn [startswith append Ascii.eqb Bool.eqb andb _splitnetloc].
  fold netloc_char.
  pose proof (span_append netloc_char x) as Hx.
  destruct (span netloc_char x) as [n p]. cbn [fst snd] in *.
  destruct (netloc_brackets_ok rt n); [| reflexivity].
  cbn [bind].
  assert (Hp : forall_char path_char p = true).
  { rewrite <- Hx, forall_char_app in Hpath. now apply andb_true_iff in Hpath. }
  assert (Hst : split_tail s n p =
                {| split_scheme := s; split_netloc := n; split_path := p;
                   split_query := ""; split_fragment := "" |}).
  { unfold split_tail.
    rewrite (partition_none "#" p), (partition_none "?" p); [reflexivity | |];
      apply (forall_char_impl path_char); try assumption;
      intros c Hc; now destruct (path_char_marks _ Hc). }
  rewrite Hst. cbn [split_scheme split_path split_netloc split_query split_fragment].
  destruct (mem s uses_params); [| reflexivity].
  now rewrite (Hprm eq_refl).
Qed.

(** The canonical form of a URL that declares a scheme, parsed again. *)
Lemma urlparse_clean_url : forall url r,
  urlparse rt url = Return r ->
  scheme r <> "" ->
  exists n p,
    n ++ p = netloc r ++ path r /\
    (netloc r <> "" -> netloc_brackets_ok rt n = true) /\
    urlparse rt (clean_url r) =
    if netloc_brackets_ok rt n
    then Return {| scheme := scheme r; netloc := n; path := p; params := "";
                   query := ""; fragment := "" |}
    else Raise (ValueError "Invalid IPv6 URL").
Proof.
  intros url r Hr Hne.
  destruct (urlparse_parts rt _ _ Hr) as (Hsh & Hsafe & Hn & Hp & Hprm & Hcase).
  specialize (Hsh Hne).
  set (x := netloc r ++ path r) in *.
  assert (Hx : forall_char path_char x = true).
  { unfold x. rewrite forall_char_app, Hp, andb_true_r.
    apply (forall_char_impl netloc_char); [| assumption].
    apply netloc_char_path_char. }
  assert (Hspan : (netloc r <> "" -> fst (span netloc_char x) = netloc r) /\
                  (mem (scheme r) uses_params = true ->
                   _splitparams (snd (span netloc_char x)) =
                   (snd (span netloc_char x), ""))).
  { destruct Hcase as [Hempty | [Hok Hhead]].
    - split; [congruence |]. intros Hup. specialize (Hprm Hup).
      unfold x in *. rewrite Hempty in *. cbn [append] in *.
      pose proof (span_append netloc_char (path r)) as Ha.
      pose proof (span_fst_forall netloc_char (path r)) as Hf.
      pose proof (span_snd_head netloc_char (path r)) as Hh.
      destruct (span netloc_char (path r)) as [a [| d w]]; cbn [fst snd] in *.
      + reflexivity.
      + assert (Hd : d = "/"%char).
        { apply path_char_delim_slash; [| now apply (Hh d w)].
          rewrite <- Ha, forall_char_app in Hp. apply andb_true_iff in Hp.
          destruct Hp as [_ Hp]. simpl in Hp. now apply andb_true_iff in Hp. }
        subst d. apply (splitparams_drop_segment a w).
        * apply (forall_char_impl netloc_char); [| assumption].
          intros c. unfold netloc_char, not_char, is_netloc_delim.
          destruct (Ascii.eqb c "/"); [discriminate | reflexivity].
        * now rewrite Ha.
    - assert (Hsp : span netloc_char x = (netloc r, path r)).
      { unfold x. rewrite (span_app_forall _ _ _ Hn).
        destruct Hhead as [-> | [w ->]]; simpl; now rewrite append_nil_r. }
      rewrite Hsp. cbn [fst snd]. split; auto. }
  destruct Hspan as [Hfst Hsnd].
  exists (fst (span netloc_char x)), (snd (span netloc_char x)).
  split; [apply span_append | split].
  - intros Hnn. rewrite (Hfst Hnn).
    destruct Hcase as [Hempty | [Hok _]]; [congruence | assumption].
  - unfold clean_url. fold x. now apply urlparse_canonical.
Qed.

(** C6, as the code has it: two URLs that differ only in what follows
    their first [?] or [#] (in their query and fragment) have the same
    canonical form, whatever the query and the fragment hold; and
    [canonicalize] is idempotent on every URL that declares a scheme: the
    canonical form of its canonical form, when parsing it raises nothing, is
    the canonical form itself, and parsing it raises nothing when the URL
    has an authority. *)
Theorem canonicalize_query_fragment_and_idempotence :
  (forall b m1 m2,
     is_query_or_fragment m1 = true ->
     is_query_or_fragment m2 = true ->
     canonicalize rt (b ++ m1) = canonicalize rt (b ++ m2)) /\
  (forall url r,
     urlparse rt url = Return r ->
     scheme r <> "" ->
     (forall c', canonicalize rt (clean_url r) = Return c' -> c' = clean_url r) /\
     (netloc r <> "" -> canonicalize rt (clean_url r) = Return (clean_url r))).
Proof.
  split.
  - assert (H : forall b m, is_query_or_fragment m = true ->
                       canonicalize rt (b ++ m) = canonicalize rt b).
    { intros b [| d q] Hm; [now rewrite append_nil_r |].
      now apply canonicalize_app_mark. }
    intros b m1 m2 H1 H2. now rewrite (H b m1 H1), (H b m2 H2).
  - intros url r Hr Hne.
    destruct (urlparse_clean_url _ _ Hr Hne) as (n & p & Hnp & Hok & Hparse).
    unfold canonicalize. rewrite Hparse. split.
    + intros c'. destruct (netloc_brackets_ok rt n); [| discriminate].
      cbn [bind]. intros H. inv H. unfold clean_url. cbn [scheme netloc path].
      now rewrite Hnp.
    + intros Hnn. rewrite (Hok Hnn). cbn [bind]. unfold clean_url.
      cbn [scheme netloc path]. now rewrite Hnp.
Qed.

End Idempotence.

(** ** The scope filter *)

Section Scope.

Variable rt : Runtime.

(** X1: [is_valid_url] rejects every URL that has an authority other than
    the base URL's. *)
Lemma is_valid_url_rejects_other_authority : forall self url parsed base_parsed,
  urlparse rt url = Return parsed ->
  urlparse rt (base_url self) = Return base_parsed ->
  netloc parsed <> "" ->
  netloc parsed <> netloc base_parsed ->
  is_valid_url rt self url = false.
Proof.
  intros self url parsed base_parsed Hu Hb Hne Hdiff. unfold is_valid_url.
  rewrite Hu, Hb. cbn [bind].
  destruct (String.eqb_spec (netloc parsed) "") as [E | _]; [congruence |].
  destruct (String.eqb_spec (netloc parsed) (netloc base_parsed)) as [E | _];
    [congruence | reflexivity].
Qed.

(** X2: [is_valid_url] rejects every URL that declares a scheme other than
    [http] and [https]. *)
Lemma is_valid_url_rejects_other_scheme : forall self url parsed,
  urlparse rt url = Return parsed ->
  scheme parsed <> "" ->
  mem (scheme parsed) ["http"; "https"] = false ->
  is_valid_url rt self url = false.
Proof.
  intros self url parsed Hu Hne Hs. unfold is_valid_url.
  rewrite Hu. cbn [bind].
  destruct (urlparse rt (base_url self)) as [base_parsed | e]; [| reflexivity].
  cbn [bind]. destruct (_ && _); [reflexivity |].
  destruct (String.eqb_spec (scheme parsed) "") as [E | _]; [congruence |].
  rewrite Hs. reflexivity.
Qed.

(** X3: [is_valid_url] rejects every URL whose text, query and fragment
    included, ends with a listed extension, in whatever letter case. *)
Lemma is_valid_url_rejects_extension : forall self url ext,
  In ext skip_extensions ->
  endswith (lower url) ext = true ->
  is_valid_url rt self url = false.
Proof.
  intros self url ext Hin He. unfold is_valid_url.
  destruct (urlparse rt url) as [parsed | e]; [| reflexivity].
  destruct (urlparse rt (base_url self)) as [base_parsed | e]; [| reflexivity].
  cbn [bind]. destruct (_ && _); [reflexivity |].
  destruct (_ && _); [reflexivity |].
  assert (Hex : existsb (fun ext0 => endswith (lower url) ext0) skip_extensions = true).
  { apply existsb_exists. eauto. }
  rewrite Hex. reflexivity.
Qed.

(** X4: [is_valid_url] returns [False], and raises nothing, for a URL that
    [urlparse] refuses. *)
Lemma is_valid_url_rejects_malformed : forall self url e,
  urlparse rt url = Raise e ->
  is_valid_url rt self url = false.
Proof.
  intros self url e Hu. unfold is_valid_url. now rewrite Hu.
Qed.


End Scope.

(** ** The records of a crawl *)

Section Records.

Variable rt : Runtime.

(** The dictionary of [check_url] has a status code or an error, not
    both. *)
Lemma check_url_shape : forall self url r,
  fst (check_url rt self url) = Return r ->
  r_url r = url /\
  ((r_error r = None /\ exists code, r_status_code r = Some code) \/
   (r_status_code r = None /\ exists msg, r_error r = Some msg)).
Proof.
  intros self url r. rewrite check_url_result.
  destruct (session_get rt (session self) _) as [response | []];
    intros H; inv H; simpl; eauto 6.
Qed.

(** The lists after a pass: as before, or with the record of the URL that
    was fetched at the end of one of them. *)
Lemma crawl_step_lists : forall c st c',
  crawl_step rt c = (st, c') ->
  (broken_links (checker c') = broken_links (checker c) /\
   valid_links (checker c') = valid_links (checker c) /\
   (st = Running -> visited (checker c') = visited (checker c))) \/
  (exists u rest x,
     to_visit (checker c) = u :: rest /\
     mem u (visited (checker c)) = false /\
     visited (checker c') = (visited (checker c) ++ [u])%list /\
     url_of x = u /\
     ((broken_record x = true /\
       broken_links (checker c') = (broken_links (checker c) ++ [x])%list /\
       valid_links (checker c') = valid_links (checker c)) \/
      (valid_record x = true /\
       valid_links (checker c') = (valid_links (checker c) ++ [x])%list /\
       broken_links (checker c') = broken_links (checker c)))).
Proof.
  intros c st c' Hs. pose proof Hs as Hi. apply crawl_step_inv in Hi.
  destruct Hi as [(_ & -> & _) | [(u & rest & _ & _ & _ & _ & ->) | Hi]].
  - left. auto.
  - left. auto.
  - destruct Hi as (u & rest & extra & added & recs_b & recs_v &
                    Hq & Hlt & Hm & Hst & Hc & Hrec).
    destruct Hc as (_ & _ & _ & _ & Hvis & _ & _ & _ & Hbl & Hvl).
    rewrite (crawl_step_fetches rt c u rest Hq Hlt Hm) in Hs. cbv zeta in Hs.
    destruct (fst (check_url rt (checker c) u)) as [r | e] eqn:Hr.
    2:{ inv Hs. left. simpl. split; [reflexivity |]. split; [reflexivity |].
        discriminate. }
    destruct (check_url_shape _ _ _ Hr) as (Hu & Hshape).
    pose proof (record_result_lists _ _ _ _ _ _ _ Hs) as Hl. simpl in Hl.
    revert Hl.
    destruct Hshape as [(He & code & Hcode) | (Hcode & msg & He)];
      rewrite He, Hcode; simpl.
    + destruct (code >=? 400)%Z eqn:Hge; intros Hl; injection Hl as Hb Hv; right.
      * exists u, rest, (with_issue r ("HTTP " ++ str_of_int code ++ " error")).
        repeat split; auto. left. repeat split; auto.
        unfold broken_record. simpl. rewrite He, Hcode.
        rewrite String.eqb_refl, andb_true_r. apply Z.leb_le.
        apply Z.geb_le in Hge. assumption.
      * exists u, rest, {| fetched := r; issue := None |}.
        repeat split; auto. right. repeat split; auto.
        unfold valid_record. simpl. rewrite He, Hcode.
        apply Z.ltb_lt. rewrite Z.geb_leb in Hge. apply Z.leb_gt in Hge. lia.
    + destruct (String.eqb_spec msg "") as [Hmsg | Hne]; simpl;
        intros Hl; injection Hl as Hb Hv.
      * left. split; [assumption |]. split; [assumption |].
        unfold record_result in Hs. rewrite He, Hcode, Hmsg in Hs. simpl in Hs.
        inv Hs. discriminate.
      * right. exists u, rest, (with_issue r ("Connection error: " ++ msg)).
        repeat split; auto. left. repeat split; auto.
        unfold broken_record. simpl. rewrite He, Hcode.
        rewrite String.eqb_refl, andb_true_r.
        destruct (String.eqb_spec msg ""); [contradiction | reflexivity].
Qed.

(** What every pass keeps, whatever its end, holds in every state of a
    crawl: at the head of the loop, after a pass, and when the crawl
    ends. *)
Lemma crawl_keeps : forall (P : LinkChecker -> Prop) (self0 : LinkChecker),
  P self0 ->
  (forall c st c', P (checker c) -> crawl_step rt c = (st, c') -> P (checker c')) ->
  forall c,
    reachable rt self0 c ->
    P (checker c) /\
    (forall st c', crawl_step rt c = (st, c') -> P (checker c')) /\
    (forall fuel r c', crawl_loop rt fuel c = Some (r, c') -> P (checker c')).
Proof.
  intros P self0 H0 Hstep.
  assert (Hr : forall c, reachable rt self0 c -> P (checker c)).
  { intros c Hc. induction Hc as [| c c' Hc IH Hs]; [assumption |].
    apply (Hstep _ _ _ IH Hs). }
  intros c Hc. split; [auto |]. split.
  - intros st c' Hs. apply (Hstep _ _ _ (Hr _ Hc) Hs).
  - intros fuel r c' Hl.
    destruct (crawl_loop_ends_after_step _ _ _ _ _ _ Hc Hl) as (c0 & st & Hc0 & Hs).
    apply (Hstep _ _ _ (Hr _ Hc0) Hs).
Qed.

Lemma records_ok_step : forall c st c',
  records_ok (checker c) ->
  crawl_step rt c = (st, c') ->
  records_ok (checker c').
Proof.
  intros c st c' (Hv & Hb) Hs. apply crawl_step_lists in Hs.
  destruct Hs as [(Eb & Ev & _) |
                  (u & rest & x & _ & _ & _ & _ &
                   [(Hx & Eb & Ev) | (Hx & Ev & Eb)])];
    unfold records_ok; rewrite Eb, Ev; split; auto;
    apply Forall_app; split; auto.
Qed.

(** X8: every record a crawl appends is well formed.  A record of
    [valid_links] has a status code below 400, no error and no [issue]; a
    record of [broken_links] has either a non-empty error, no status code
    and the issue [Connection error: <error>], or no error, a status code
    from 400 on and the issue [HTTP <code> error].  When the two lists of
    the checker hold such records only (as the empty lists of a new checker
    do), they do so at the head of the loop, after every pass, one that
    raised included, and when the crawl ends. *)
Theorem crawl_keeps_records_well_formed : forall self0 c,
  records_ok self0 ->
  reachable rt self0 c ->
  records_ok (checker c) /\
  (forall st c', crawl_step rt c = (st, c') -> records_ok (checker c')) /\
  (forall fuel r c', crawl_loop rt fuel c = Some (r, c') -> records_ok (checker c')).
Proof.
  intros self0 c H0 Hc.
  apply (crawl_keeps records_ok self0 H0 records_ok_step c Hc).
Qed.

Lemma visited_nodup_step : forall c st c',
  NoDup (visited (checker c)) ->
  crawl_step rt c = (st, c') ->
  NoDup (visited (checker c')).
Proof.
  intros c st c' Hn Hs. apply crawl_step_inv in Hs.
  destruct Hs as [(_ & -> & _) | [(u & rest & _ & _ & _ & _ & ->) | Hs]];
    [assumption | assumption |].
  destruct Hs as (u & rest & extra & added & recs_b & recs_v &
                  _ & _ & Hm & _ & Hc & _).
  destruct Hc as (_ & _ & _ & _ & Hv & _). rewrite Hv.
  apply NoDup_rev in Hn. rewrite <- (List.rev_involutive (_ ++ _)%list).
  apply NoDup_rev. rewrite List.rev_app_distr. simpl.
  constructor; [| assumption].
  rewrite <- List.in_rev. intros Hin. apply mem_In in Hin. congruence.
Qed.

Lemma recorded_urls_step : forall c c',
  Permutation (recorded_urls (checker c)) (visited (checker c)) ->
  crawl_step rt c = (Running, c') ->
  Permutation (recorded_urls (checker c')) (visited (checker c')).
Proof.
  intros c c' Hp Hs. apply crawl_step_lists in Hs. unfold recorded_urls in *.
  destruct Hs as [(Eb & Ev & Evis) |
                  (u & rest & x & _ & _ & Evis & Hx &
                   [(_ & Eb & Ev) | (_ & Ev & Eb)])].
  - rewrite Eb, Ev, (Evis eq_refl). assumption.
  - rewrite Eb, Ev, Evis, List.app_assoc, List.map_app. simpl. rewrite Hx.
    apply Permutation_app_tail. assumption.
  - rewrite Eb, Ev, Evis, <- List.app_assoc, List.map_app. simpl.
    rewrite Hx. rewrite List.map_app in Hp.
    apply Permutation_trans with (u :: map url_of (valid_links (checker c)) ++
                                       map url_of (broken_links (checker c)))%list.
    + apply Permutation_sym, Permutation_middle.
    + apply Permutation_trans with (u :: visited (checker c)).
      * constructor. assumption.
      * apply Permutation_cons_append.
Qed.

(** X9: a crawl on a new checker records every visited URL once.  At the
    head of the loop, and when the crawl returns, the URLs of the records
    of the two lists are the visited URLs, each of them with one record,
    in one of the lists. *)
Theorem every_visited_url_has_one_record : forall url pages d c,
  reachable rt (__init__ url pages d) c ->
  (Permutation (recorded_urls (checker c)) (visited (checker c)) /\
   NoDup (recorded_urls (checker c))) /\
  (forall fuel c',
     crawl_loop rt fuel c = Some (Return tt, c') ->
     Permutation (recorded_urls (checker c')) (visited (checker c')) /\
     NoDup (recorded_urls (checker c'))).
Proof.
  intros url pages d.
  assert (H : forall c, reachable rt (__init__ url pages d) c ->
              Permutation (recorded_urls (checker c)) (visited (checker c)) /\
              NoDup (recorded_urls (checker c))).
  { intros c Hc.
    assert (Hp : Permutation (recorded_urls (checker c)) (visited (checker c))).
    { induction Hc as [| c c' Hc IH Hs]; [constructor |].
      apply (recorded_urls_step _ _ IH Hs). }
    split; [assumption |].
    apply (Permutation_NoDup (Permutation_sym Hp)).
    apply (crawl_keeps (fun self => NoDup (visited self)) (__init__ url pages d)).
    - constructor.
    - apply visited_nodup_step.
    - assumption. }
  intros c Hc. split; [auto |].
  intros fuel c' Hl. apply H.
  apply (crawl_loop_returns_reachable _ _ _ _ _ Hc Hl).
Qed.

Lemma fetched_urls_step : forall c st c',
  fetched_urls (checker c) = visited (checker c) ->
  crawl_step rt c = (st, c') ->
  fetched_urls (checker c') = visited (checker c').
Proof.
  intros c st c' Hf Hs. apply crawl_step_inv in Hs.
  destruct Hs as [(_ & -> & _) | [(u & rest & _ & _ & _ & _ & ->) | Hs]];
    [assumption | assumption |].
  destruct Hs as (u & rest & extra & added & recs_b & recs_v &
                  _ & _ & _ & _ & Hc & _).
  destruct Hc as (_ & _ & _ & _ & Hv & _ & Hs & Hx & _).
  unfold fetched_urls in *. rewrite Hs, Hv, List.filter_app, List.map_app, Hf.
  destruct Hx as [-> | ->]; reflexivity.
Qed.

(** X10: a crawl on a new checker fetches no URL twice.  In every state of
    the crawl (at the head of the loop, after a pass, one that raised
    included, and when the crawl ends) the URLs that [check_url] requested
    are, in the order of the requests, the visited URLs, and no URL is
    among them twice. *)
Theorem no_url_is_fetched_twice : forall url pages d c,
  reachable rt (__init__ url pages d) c ->
  (fetched_urls (checker c) = visited (checker c) /\
   NoDup (fetched_urls (checker c))) /\
  (forall st c',
     crawl_step rt c = (st, c') ->
     fetched_urls (checker c') = visited (checker c') /\
     NoDup (fetched_urls (checker c'))) /\
  (forall fuel r c',
     crawl_loop rt fuel c = Some (r, c') ->
     fetched_urls (checker c') = visited (checker c') /\
     NoDup (fetched_urls (checker c'))).
Proof.
  intros url pages d c Hc.
  apply (crawl_keeps
           (fun self => fetched_urls self = visited self /\ NoDup (fetched_urls self))
           (__init__ url pages d)); [| | assumption].
  - split; [reflexivity | constructor].
  - intros c0 st c' (Hf & Hn) Hs.
    pose proof (fetched_urls_step _ _ _ Hf Hs) as Hf'. split; [assumption |].
    rewrite Hf'. rewrite Hf in Hn. apply (visited_nodup_step _ _ _ Hn Hs).
Qed.

(** A crawl that returns left the loop by its condition. *)
Lemma crawl_loop_returns_done : forall fuel c c',
  crawl_loop rt fuel c = Some (Return tt, c') ->
  crawl_step rt c' = (Done, c').
Proof.
  induction fuel as [| fuel IH]; intros c c' H; [discriminate |].
  simpl in H. destruct (crawl_step rt c) as [[| | e] c1] eqn:Hs.
  - apply (IH _ _ H).
  - inv H. pose proof Hs as Hi. apply crawl_step_inv in Hi.
    destruct Hi as [(_ & -> & _) | [(u & rest & _ & _ & _ & Hd & _) | Hi]].
    + assumption.
    + discriminate.
    + destruct Hi as (u & rest & extra & added & recs_b & recs_v &
                      _ & _ & _ & Hd & _). congruence.
  - discriminate.
Qed.

(** X15: a crawl returns only with an empty queue or a spent budget.  When
    [crawl] returns (raising nothing) and URLs are left on the queue, the
    counter [pages_checked] is [max_pages] exactly (0 for a negative
    [max_pages]), and so is the number of fetch attempts of the crawl. *)
Theorem crawl_stops_at_budget_or_empty_queue : forall self0 fuel c',
  crawl rt fuel self0 = Some (Return tt, c') ->
  to_visit (checker c') = [] \/
  (pages_checked c' = Z.max 0 (max_pages self0) /\
   (fetch_attempts (checker c') - fetch_attempts self0)%Z = Z.max 0 (max_pages self0)).
Proof.
  intros self0 fuel c' H. unfold crawl in H.
  pose proof (crawl_loop_returns_reachable _ _ _ _ _ (reach_start rt self0) H) as Hr.
  apply reachable_invariant in Hr. destruct Hr as (Hm & Hf & _ & _ & H0 & Hb).
  apply crawl_loop_returns_done in H. apply crawl_step_inv in H.
  destruct H as [(_ & _ & [Hq | Hge]) | [(u & rest & _ & _ & _ & Hd & _) | Hi]].
  - left. assumption.
  - right. rewrite Hm in Hge. lia.
  - discriminate.
  - destruct Hi as (u & rest & extra & added & recs_b & recs_v &
                    _ & _ & _ & Hd & _). congruence.
Qed.

(** A pass loses no URL: what was on the queue is on the queue or
    visited. *)
Lemma crawl_step_keeps_urls : forall c st c' x,
  crawl_step rt c = (st, c') ->
  In x (to_visit (checker c) ++ visited (checker c))%list ->
  In x (to_visit (checker c') ++ visited (checker c'))%list.
Proof.
  intros c st c' x Hs Hin. apply crawl_step_inv in Hs.
  destruct Hs as [(_ & -> & _) | [(u & rest & Hq & _ & Hm & _ & ->) | Hs]].
  - assumption.
  - simpl. rewrite Hq in Hin. apply in_or_app.
    destruct Hin as [<- | Hin]; [right; apply mem_In; assumption |].
    apply in_app_or in Hin. assumption.
  - destruct Hs as (u & rest & extra & added & recs_b & recs_v &
                    Hq & _ & _ & _ & Hc & _).
    destruct Hc as (_ & _ & _ & _ & Hv & Hq' & _).
    rewrite Hq in Hin. rewrite Hv, Hq'.
    destruct Hin as [<- | Hin].
    + apply in_or_app. right. apply in_or_app. right. left. reflexivity.
    + apply in_app_or in Hin. destruct Hin as [Hin | Hin].
      * apply in_or_app. left. apply in_or_app. left. assumption.
      * apply in_or_app. right. apply in_or_app. left. assumption.
Qed.

Lemma crawl_loop_keeps_urls : forall fuel c r c' x,
  crawl_loop rt fuel c = Some (r, c') ->
  In x (to_visit (checker c) ++ visited (checker c))%list ->
  In x (to_visit (checker c') ++ visited (checker c'))%list.
Proof.
  induction fuel as [| fuel IH]; intros c r c' x H Hin; [discriminate |].
  simpl in H. destruct (crawl_step rt c) as [[| | e] c1] eqn:Hs.
  - apply (IH _ _ _ _ H). apply (crawl_step_keeps_urls _ _ _ _ Hs Hin).
  - inv H. apply (crawl_step_keeps_urls _ _ _ _ Hs Hin).
  - inv H. apply (crawl_step_keeps_urls _ _ _ _ Hs Hin).
Qed.

(** X20: a crawl drops no URL.  A URL that is on the queue or visited
    before a pass is on the queue or visited after it, however the pass
    ends, and still when the crawl ends; so when [crawl] ends with an empty
    queue, every URL that was on the queue at the start, or at the head of
    the loop later, has been visited. *)
Theorem crawl_drops_no_url : forall c x,
  In x (to_visit (checker c) ++ visited (checker c))%list ->
  (forall st c',
     crawl_step rt c = (st, c') ->
     In x (to_visit (checker c') ++ visited (checker c'))%list) /\
  (forall fuel r c',
     crawl_loop rt fuel c = Some (r, c') ->
     In x (to_visit (checker c') ++ visited (checker c'))%list /\
     (to_visit (checker c') = [] -> In x (visited (checker c')))).
Proof.
  intros c x Hin. split.
  - intros st c' Hs. apply (crawl_step_keeps_urls _ _ _ _ Hs Hin).
  - intros fuel r c' Hl.
    pose proof (crawl_loop_keeps_urls _ _ _ _ _ Hl Hin) as H.
    split; [assumption |]. intros Hq. rewrite Hq in H. assumption.
Qed.

(** The second request of a pass is for the page that was just recorded
    as valid, an HTML page that answered 200. *)
Lemma crawl_step_again : forall c st c' rq,
  crawl_step rt c = (st, c') ->
  In rq (session (checker c')) ->
  req_site rq = InCrawl ->
  In rq (session (checker c)) \/
  exists l,
    In l (valid_links (checker c')) /\ url_of l = req_url rq /\ html_page l = true.
Proof.
  intros c st c' rq Hs Hin Hsite. pose proof Hs as Hi. apply crawl_step_inv in Hi.
  destruct Hi as [(_ & -> & _) | [(u & rest & _ & _ & _ & _ & ->) | Hi]];
    [auto | auto |].
  destruct Hi as (u & rest & extra & added & recs_b & recs_v &
                  Hq & Hlt & Hm & _ & Hc & _).
  destruct Hc as (_ & _ & _ & _ & _ & _ & Hses & Hx & _ & Hvl).
  rewrite Hses in Hin. apply in_app_or in Hin.
  destruct Hin as [Hin | [<- | Hin]]; [auto | discriminate |].
  destruct Hx as [-> | ->]; [destruct Hin |].
  destruct Hin as [<- | []]. right.
  rewrite (crawl_step_fetches rt c u rest Hq Hlt Hm) in Hs. cbv zeta in Hs.
  destruct (fst (check_url rt (checker c) u)) as [r | e] eqn:Hr.
  2:{ inv Hs. simpl in Hses. exfalso.
      apply List.app_inv_head in Hses. discriminate. }
  destruct (check_url_shape _ _ _ Hr) as (Hu & _).
  pose proof (record_result_lists _ _ _ _ _ _ _ Hs) as Hl. simpl in Hl.
  assert (Hsession : forall self n st0 c0,
            rate_limit rt self n = (st0, c0) -> session (checker c0) = session self).
  { intros self n st0 c0 H. apply rate_limit_inv in H. destruct H as [-> _].
    reflexivity. }
  unfold record_result in Hs. revert Hs Hl.
  destruct (truthy (r_error r)).
  { intros Hs _. apply Hsession in Hs. rewrite Hses in Hs. simpl in Hs.
    exfalso. apply List.app_inv_head in Hs. discriminate. }
  destruct (r_status_code r) as [code |] eqn:Hcode.
  2:{ intros Hs _. inv Hs. simpl in Hses. exfalso.
      apply List.app_inv_head in Hses. discriminate. }
  destruct (code >=? 400)%Z.
  { intros Hs _. apply Hsession in Hs. rewrite Hses in Hs. simpl in Hs.
    exfalso. apply List.app_inv_head in Hs. discriminate. }
  destruct (truthy (r_content_type r) && _ && _) eqn:Hhtml.
  2:{ intros Hs _. apply Hsession in Hs. rewrite Hses in Hs. simpl in Hs.
      exfalso. apply List.app_inv_head in Hs. discriminate. }
  intros _ Hl. injection Hl as _ Hv.
  exists {| fetched := r; issue := None |}. split.
  - rewrite Hv. apply in_or_app. right. left. reflexivity.
  - split; [exact Hu |]. unfold html_page. simpl. rewrite Hcode.
    apply andb_true_iff in Hhtml. destruct Hhtml as (Hhtml & H200).
    apply andb_true_iff in Hhtml. destruct Hhtml as (_ & Hct).
    rewrite H200, Hct. reflexivity.
Qed.

Lemma extraction_requests_ok_step : forall c st c',
  extraction_requests_ok (checker c) ->
  crawl_step rt c = (st, c') ->
  extraction_requests_ok (checker c').
Proof.
  intros c st c' H Hs rq Hin Hsite.
  destruct (crawl_step_again _ _ _ _ Hs Hin Hsite) as [Hold | Hnew]; [| assumption].
  destruct (H rq Hold Hsite) as (l & Hl & Hrest). exists l. split; [| assumption].
  apply crawl_step_lists in Hs.
  destruct Hs as [(_ & -> & _) |
                  (u & rest & x & _ & _ & _ & _ &
                   [(_ & _ & ->) | (_ & -> & _)])];
    try assumption.
  apply in_or_app. left. assumption.
Qed.

(** X21: links are read from HTML pages that answered 200 only.  In every
    state of a crawl on a new checker, each second request for a page (the
    one whose text [extract_links] reads) is for a URL that has a record in
    [valid_links] with the status code 200 and a content type that holds
    [text/html]; no other page is requested a second time. *)
Theorem links_are_read_from_html_pages_only : forall url pages d c,
  reachable rt (__init__ url pages d) c ->
  extraction_requests_ok (checker c) /\
  (forall st c',
     crawl_step rt c = (st, c') -> extraction_requests_ok (checker c')) /\
  (forall fuel r c',
     crawl_loop rt fuel c = Some (r, c') -> extraction_requests_ok (checker c')).
Proof.
  intros url pages d c Hc.
  apply (crawl_keeps extraction_requests_ok (__init__ url pages d));
    [| apply extraction_requests_ok_step | assumption].
  intros rq [].
Qed.

End Records.

(** ** What a crawl raises *)

Section Failures.

Variable rt : Runtime.














End Failures.

(** ** The scope of a crawl *)

Section CrawlScope.

Variable rt : Runtime.






Hypothesis set_iter_elements : forall l x, In x (set_iter rt l) -> In x l.






End CrawlScope.

(** ** The two patterns *)

Section Patterns.

Lemma lower_app : forall a b, lower (a ++ b) = lower a ++ lower b.
Proof.
  induction a as [| c a IH]; intros b; simpl; [reflexivity | now rewrite IH].
Qed.

Lemma lower_length : forall s, String.length (lower s) = String.length s.
Proof.
  induction s as [| c s IH]; simpl; [reflexivity | now rewrite IH].
Qed.

Lemma drop_app : forall a b, drop (String.length a) (a ++ b) = b.
Proof.
  induction a as [| c a IH]; intros b; simpl; [now destruct b | apply IH].
Qed.

Lemma match_attr_value : forall attr s v n,
  match_attr attr s = Some (v, n) ->
  v <> "" /\ forall_char (fun c => negb (is_quote c)) v = true.
Proof.
  intros attr s v n. unfold match_attr.
  destruct (startswith (lower s) attr); [| discriminate].
  destruct (drop (String.length attr) s) as [| q rest]; [discriminate |].
  destruct (is_quote q); [| discriminate].
  pose proof (span_fst_forall (fun c => negb (is_quote c)) rest) as Hf.
  destruct (span (fun c => negb (is_quote c)) rest) as [v0 after].
  destruct v0 as [| c v0]; [discriminate |].
  destruct after as [| c' after]; [discriminate |].
  intros H. inv H. split; [discriminate | exact Hf].
Qed.

Lemma finditer_from_values : forall attr s skip v,
  In v (finditer_from attr skip s) ->
  v <> "" /\ forall_char (fun c => negb (is_quote c)) v = true.
Proof.
  intros attr s. induction s as [| c s IH]; intros skip v Hin; simpl in Hin.
  - destruct Hin.
  - destruct skip as [| k]; [| apply (IH _ _ Hin)].
    destruct (match_attr attr (String c s)) as [[v0 n] |] eqn:Hm.
    + destruct Hin as [<- | Hin]; [apply (match_attr_value _ _ _ _ Hm) |].
      apply (IH _ _ Hin).
    + apply (IH _ _ Hin).
Qed.

Lemma finditer_from_skip : forall attr x rest,
  finditer_from attr (String.length x) (x ++ rest) = finditer_from attr 0 rest.
Proof.
  intros attr x rest. induction x as [| c x IH]; simpl.
  - destruct rest; reflexivity.
  - exact IH.
Qed.

(** An attribute at the start of the text is matched there. *)
Lemma match_attr_head : forall attr tag q1 v q2 rest,
  lower tag = attr ->
  is_quote q1 = true ->
  is_quote q2 = true ->
  v <> "" ->
  forall_char (fun c => negb (is_quote c)) v = true ->
  match_attr attr (tag ++ String q1 (v ++ String q2 rest)) =
  Some (v, String.length attr + 1 + String.length v + 1).
Proof.
  intros attr tag q1 v q2 rest Ht H1 H2 Hv Hf. unfold match_attr.
  rewrite lower_app, Ht, startswith_app.
  rewrite <- Ht, lower_length, drop_app, H1.
  rewrite span_app_stop by (now rewrite H2).
  rewrite (span_forall _ _ Hf). simpl.
  destruct v as [| c v]; [contradiction | reflexivity].
Qed.

(** X16: what the two patterns of [extract_links] read.  Every value that
    [re.finditer] yields for [href=] or [src=] is not empty and holds no
    quote character; and an attribute at the start of a text (its name in
    any letter case, its value not empty and without a quote character,
    between two quote characters that need not be the same) yields its
    value, after which the search goes on behind the closing quote. *)
Theorem finditer_reads_quoted_values : forall attr,
  (forall s v,
     In v (finditer attr s) ->
     v <> "" /\ forall_char (fun c => negb (is_quote c)) v = true) /\
  (forall tag q1 v q2 rest,
     lower tag = attr ->
     is_quote q1 = true ->
     is_quote q2 = true ->
     v <> "" ->
     forall_char (fun c => negb (is_quote c)) v = true ->
     finditer attr (tag ++ String q1 (v ++ String q2 rest)) =
     v :: finditer attr rest).
Proof.
  intros attr. split.
  - intros s v. apply finditer_from_values.
  - intros tag q1 v q2 rest Ht H1 H2 Hv Hf. unfold finditer.
    pose proof (match_attr_head attr tag q1 v q2 rest Ht H1 H2 Hv Hf) as Hm.
    assert (Hw : exists c x,
               tag ++ String q1 (v ++ String q2 rest) = String c (x ++ rest) /\
               String.length x = String.length attr + 1 + String.length v + 1 - 1).
    { rewrite <- Ht, lower_length. destruct tag as [| c tag].
      - exists q1, (v ++ String q2 ""). split.
        + simpl. rewrite append_assoc. reflexivity.
        + rewrite append_length. simpl. lia.
      - exists c, (tag ++ String q1 (v ++ String q2 "")). split.
        + simpl. rewrite !append_assoc. simpl. rewrite append_assoc. reflexivity.
        + rewrite !append_length. simpl. rewrite append_length. simpl. lia. }
    destruct Hw as (c & x & Hw & Hl). rewrite Hw in *.
    cbn [finditer_from]. rewrite Hm, <- Hl. f_equal. apply finditer_from_skip.
Qed.

End Patterns.

(** ** The summary and the command line *)

Section Summary.

Variable rt : Runtime.





Variable host : Host.

(** The run a call of [main] returned, put in place of its name. *)
Ltac name_run H :=
  match type of H with
  | Some ?a = Some ?b =>
      let E := fresh in assert (E : b = a) by congruence; clear H; subst b
  end.


Lemma handle_saved : forall self out file e,
  saved (handle self out file e) = file.
Proof.
  intros self out file e. unfold handle.
  destruct e as [[] |]; try reflexivity.
  destruct (print_summary self). reflexivity.
Qed.

(** The states a crawl on a new checker ends in. *)
Lemma crawl_ends_well : forall url pages d fuel r c,
  crawl rt fuel (__init__ url pages d) = Some (r, c) ->
  records_ok (checker c) /\
  (r = Return tt ->
   len (visited (checker c)) =
     (len (valid_links (checker c)) + len (broken_links (checker c)))%Z /\
   (len (visited (checker c)) <= Z.max 0 pages)%Z).
Proof.
  intros url pages d fuel r c H. unfold crawl in H. split.
  - refine (proj2 (proj2 (crawl_keeps rt records_ok (__init__ url pages d) _
                            (records_ok_step rt) _ (reach_start rt _))) _ _ _ H).
    split; constructor.
  - intros ->.
    pose proof (crawl_loop_returns_reachable _ _ _ _ _ (reach_start rt _) H) as Hr.
    apply reachable_invariant in Hr.
    destruct Hr as (_ & _ & Hv & Hl & _ & Hb).
    cbn [__init__ visited valid_links broken_links max_pages] in Hv, Hl, Hb.
    rewrite !len_nil in Hv, Hl. lia.
Qed.


(** X19: a report is written only after a complete crawl.  When a run of
    [main] wrote a report, the URL was accepted, [crawl] had returned
    without an exception, the report is the one of the checker it left, the
    run ended by a return, and in the report [total_pages_checked] equals
    [total_links_found], is at most [max_pages], and every record of the
    two lists is well formed. *)
Theorem main_saves_report_of_complete_crawl : forall args fuel run output report,
  main rt host fuel args = Some run ->
  saved run = Some (output, report) ->
  startswith_any (arg_url args) ["http://"; "https://"] = true /\
  arg_output args = Some output /\
  ended run = Returned /\
  (exists c,
     crawl rt fuel (__init__ (arg_url args) (arg_max_pages args) (arg_delay args)) =
       Some (Return tt, c) /\
     checker_after run = Some (checker c) /\
     report = generate_report (datetime_now host) (checker c)) /\
  total_pages_checked report = total_links_found report /\
  (total_pages_checked report <= Z.max 0 (arg_max_pages args))%Z /\
  Forall (fun l => valid_record l = true) (report_valid_links report) /\
  Forall (fun l => broken_record l = true) (report_broken_links report).
Proof.
  intros args fuel run output report. unfold main.
  destruct (startswith_any (arg_url args) _) eqn:Ha; cbn [negb].
  2:{ intros H. inv H. discriminate. }
  destruct (crawl rt fuel _) as [[r c] |] eqn:Hc; [| discriminate].
  destruct (crawl_ends_well _ _ _ _ _ _ Hc) as ((Hv & Hb) & Hcount).
  destruct r as [[] | e].
  2:{ intros H. name_run H. rewrite handle_saved. discriminate. }
  destruct (Hcount eq_refl) as (Hn & Hmax).
  unfold summarize_and_save.
  destruct (print_summary (checker c)) as [out [e0 |]].
  { intros H. name_run H. rewrite handle_saved. discriminate. }
  destruct (truthy (arg_output args)) eqn:Ht.
  2:{ intros H. name_run H. rewrite handle_saved. discriminate. }
  destruct (arg_output args) as [output' |] eqn:Ho; [| discriminate].
  cbn [or_empty].
  destruct (json_dump host output' _) as [e1 |] eqn:Hj;
    intros H; name_run H; rewrite handle_saved; [discriminate |].
  intros H. inv H. simpl.
  split; [reflexivity |]. split; [reflexivity |]. split; [reflexivity |].
  split; [exists c; auto |].
  split; [lia |]. split; [lia |]. split; assumption.
Qed.




End Summary.

(** * Runs on the small site *)

Import Scenario.

(** The scenario of the specification: three valid records, one broken
    record with the issue of a 404, a success rate of 75, and nothing of
    the other site. *)
Example docs_site_report :
  exists self,
    final refused docs_site 10 10 = Some self /\
    map (fun l => r_url (fetched l)) (valid_links self) =
      ["https://example.test/"; "https://example.test/a"; "https://example.test/b"] /\
    map (fun l => (r_url (fetched l), issue l)) (broken_links self) =
      [("https://example.test/missing", Some "HTTP 404 error")] /\
    to_visit self = [] /\
    success_rate (generate_report "now" self) = Float 75.
Proof.
  eexists. split; [vm_compute; reflexivity |]. repeat split.
Qed.

(** C1 at work: the seed refuses the connection. *)
Lemma crawl_step_classifies_witness :
  exists r st c',
    fst (check_url (serve refused []) (checker (start 10)) seed) = Return r /\
    r_error r = Some refused /\
    crawl_step (serve refused []) (start 10) = (st, c') /\
    broken_links (checker c') = [with_issue r "Connection error: Connection refused"] /\
    valid_links (checker c') = [].
Proof.
  eexists. exists (fst (crawl_step (serve refused []) (start 10))),
                  (snd (crawl_step (serve refused []) (start 10))).
  split; [vm_compute; reflexivity |].
  split; [reflexivity |].
  split; [apply surjective_pairing |].
  refine (proj1 (crawl_step_classifies (serve refused []) (start 10) seed [] _ _ _
                   eq_refl _ eq_refl eq_refl _) refused eq_refl _).
  - vm_compute. reflexivity.
  - apply surjective_pairing.
  - discriminate.
Defined.

(** C1 as stated fails: the seed refuses the connection, the fetch result
    has the error set, and the broken list holds no record with the issue
    "connection error: <message>" (small c); and when the message of the
    exception is empty, the error is set and no record is appended at all,
    a [TypeError] leaves the loop. *)
Lemma crawl_step_issue_counterexample :
  (exists r msg,
     fst (check_url (serve refused []) (checker (start 10)) seed) = Return r /\
     r_error r = Some msg /\
     ~ In (with_issue r ("connection error: " ++ msg))
          (broken_links (checker (snd (crawl_step (serve refused []) (start 10)))))) /\
  (exists r e,
     fst (check_url (serve "" []) (checker (start 10)) seed) = Return r /\
     r_error r = Some "" /\
     fst (crawl_step (serve "" []) (start 10)) = Failed (TypeError e) /\
     broken_links (checker (snd (crawl_step (serve "" []) (start 10)))) = [] /\
     valid_links (checker (snd (crawl_step (serve "" []) (start 10)))) = []).
Proof.
  split.
  - eexists. exists refused. split; [vm_compute; reflexivity |].
    split; [reflexivity |].
    vm_compute. intros [H | []]. discriminate.
  - eexists. eexists. split; [vm_compute; reflexivity |].
    repeat split.
Qed.

(** C2 at work: a budget of two pages and a queue of four. *)
Lemma fetch_attempts_within_budget_witness :
  exists c',
    crawl (serve refused docs_site) 5 (queue_of_four 2) = Some (Return tt, c') /\
    to_visit (checker c') = ["https://example.test/a"; "https://example.test/"] /\
    fetch_attempts (checker c') = 2%Z /\
    (fetch_attempts (checker c') - fetch_attempts (queue_of_four 2)
     <= max_pages (queue_of_four 2))%Z.
Proof.
  eexists. split; [vm_compute; reflexivity |].
  split; [reflexivity |]. split; [reflexivity |].
  refine (proj2 (proj2 (fetch_attempts_within_budget (serve refused docs_site)
                          (queue_of_four 2) _ _ (reach_start _ _)))
                5%nat (Return tt) _ _).
  - simpl. lia.
  - vm_compute. reflexivity.
Defined.

(** C4 at work: one page that answers, one connection that is refused. *)
Lemma check_url_returns_a_value_witness :
  (exists r,
     fst (check_url (serve refused docs_site) (checker (start 10)) seed) = Return r /\
     r_status_code r = Some 200%Z /\ r_error r = None) /\
  (exists r,
     fst (check_url (serve refused []) (checker (start 10)) seed) = Return r /\
     r_status_code r = None /\ r_error r = Some refused).
Proof.
  split.
  - destruct (check_url_returns_a_value (serve refused docs_site)
                (checker (start 10)) seed eq_refl) as (r & Hr & _ & _ & Hs & He).
    exists r. auto.
  - destruct (check_url_returns_a_value (serve refused [])
                (checker (start 10)) seed eq_refl) as (r & Hr & _ & _ & He & Hs & _).
    exists r. auto.
Defined.

(** C6 at work: one page under two queries and fragments, and the
    canonical form of its canonical form. *)
Lemma canonicalize_query_fragment_and_idempotence_witness :
  canonicalize (serve refused []) "https://example.test/a?x=1#top" =
  canonicalize (serve refused []) "https://example.test/a#other" /\
  canonicalize (serve refused []) "https://example.test/a?x=1#top" =
  Return "https://example.test/a" /\
  canonicalize (serve refused []) "https://example.test/a" =
  Return "https://example.test/a".
Proof.
  split; [| split].
  - exact (proj1 (canonicalize_query_fragment_and_idempotence (serve refused []))
             "https://example.test/a" "?x=1#top" "#other" eq_refl eq_refl).
  - vm_compute. reflexivity.
  - refine (proj2 (proj2 (canonicalize_query_fragment_and_idempotence (serve refused []))
                     "https://example.test/a?x=1#top"
                     {| scheme := "https"; netloc := "example.test"; path := "/a";
                        params := ""; query := "x=1"; fragment := "top" |}
                     _ _) _);
      first [discriminate | vm_compute; reflexivity].
Defined.

(** C6 as stated fails: [canonicalize] is not idempotent on a URL without
    a scheme; the canonical form of [/about] is [:///about], whose
    canonical form is [://:///about]. *)
Lemma canonicalize_idempotence_counterexample :
  exists c,
    canonicalize (serve refused []) "/about" = Return c /\
    c = ":///about" /\
    canonicalize (serve refused []) c = Return "://:///about" /\
    canonicalize (serve refused []) c <> Return c.
Proof.
  exists ":///about". repeat split; try (vm_compute; reflexivity).
  vm_compute. discriminate.
Qed.

(** C8 at work: three valid records and one broken record. *)
Lemma success_rate_is_rounded_percentage_witness :
  exists self,
    final refused docs_site 10 10 = Some self /\
    success_rate (generate_report "now" self) = Float 75 /\
    success_rate (generate_report "now" (__init__ seed 10 0%float)) = Int 0.
Proof.
  eexists. split; [vm_compute; reflexivity |]. split.
  - refine (eq_trans (proj1 (success_rate_is_rounded_percentage "now" _) _) _).
    + vm_compute. reflexivity.
    + vm_compute. reflexivity.
  - exact (proj2 (success_rate_is_rounded_percentage "now" (__init__ seed 10 0%float))
             (conj eq_refl eq_refl)).
Defined.

(** C8 as stated fails: with one valid and two broken records the success
    rate of the report is the float 33.33333333333333 (4691249611844266 *
    2^-47), which is not the number 100 * 1 / (1 + 2); it is not the float
    Python computes for [100 * 1 / (1 + 2)] either. *)
Lemma success_rate_counterexample :
  exists self f,
    final refused thirds_site 10 10 = Some self /\
    len (valid_links self) = 1%Z /\
    len (broken_links self) = 2%Z /\
    success_rate (generate_report "now" self) = Float f /\
    exact_value f = Some (4691249611844266 # 140737488355328)%Q /\
    ~ (4691249611844266 # 140737488355328 == 100 * 1 / (1 + 2))%Q /\
    f <> (100 * 1 / (1 + 2))%float.
Proof.
  eexists. eexists. split; [vm_compute; reflexivity |].
  split; [reflexivity |]. split; [reflexivity |].
  split; [vm_compute; reflexivity |].
  split; [vm_compute; reflexivity |].
  split.
  - vm_compute. discriminate.
  - intros H. apply (f_equal Prim2SF) in H. vm_compute in H. discriminate.
Qed.

(** C9 at work: the crawl of the small site ends after five passes. *)
Lemma crawl_terminates_witness :
  (exists fuel out,
     crawl (serve refused docs_site) fuel (__init__ seed 10 0%float) = Some out) /\
  (exists c, crawl (serve refused docs_site) 5 (__init__ seed 10 0%float)
             = Some (Return tt, c)) /\
  crawl (serve refused docs_site) 4 (__init__ seed 10 0%float) = None.
Proof.
  split; [| split].
  - exact (proj1 (crawl_terminates (serve refused docs_site) (__init__ seed 10 0%float))).
  - eexists. vm_compute. reflexivity.
  - vm_compute. reflexivity.
Defined.

(** C10 at work: the head of the loop after the first pass. *)
Lemma pages_checked_counts_visited_and_records_witness :
  exists c,
    crawl_step (serve refused docs_site) (start 10) = (Running, c) /\
    pages_checked c = 1%Z /\
    pages_checked c = len (visited (checker c)) /\
    pages_checked c =
      (len (valid_links (checker c)) + len (broken_links (checker c)))%Z.
Proof.
  eexists. split; [vm_compute; reflexivity |].
  split; [reflexivity |].
  refine ((fun H => conj (proj1 H) (proj1 (proj2 H)))
            (pages_checked_counts_visited_and_records (serve refused docs_site)
               seed 10 0%float _
               (reach_step _ _ (start 10) _ (reach_start _ _) _))).
  vm_compute. reflexivity.
Defined.

(** C3 on the code: the seed loads [/app.js?v=1] and [/app.js?v=2]; both
    are visited, and both have the canonical form
    [https://example.test/app.js]. *)
Theorem visited_repeats_a_canonical_form :
  exists self,
    final refused versioned_site 10 10 = Some self /\
    visited self =
      ["https://example.test/"; "https://example.test/app.js?v=1";
       "https://example.test/app.js?v=2"] /\
    canonicalize (serve refused versioned_site) "https://example.test/app.js?v=1" =
      Return "https://example.test/app.js" /\
    canonicalize (serve refused versioned_site) "https://example.test/app.js?v=2" =
      Return "https://example.test/app.js".
Proof.
  eexists. split; [vm_compute; reflexivity |].
  repeat split; vm_compute; reflexivity.
Qed.

(** C5 on the code: the path of [https://example.test/logo.png?v=2] ends
    with [.png], and [is_valid_url] accepts the URL; a page that links to
    it has the image fetched as a page. *)
Theorem is_valid_url_accepts_image_with_query :
  (exists parsed,
     urlparse (serve refused logo_site) "https://example.test/logo.png?v=2" =
       Return parsed /\
     path parsed = "/logo.png" /\
     endswith (lower (path parsed)) ".png" = true /\
     is_valid_url (serve refused logo_site) (__init__ seed 10 0%float)
       "https://example.test/logo.png?v=2" = true) /\
  (exists self,
     final refused logo_site 10 10 = Some self /\
     visited self = ["https://example.test/"; "https://example.test/logo.png"]).
Proof.
  split.
  - eexists. split; [vm_compute; reflexivity |].
    repeat split; vm_compute; reflexivity.
  - eexists. split; [vm_compute; reflexivity |]. reflexivity.
Qed.

(** C7 on the code: the seed embeds a resource of the host
    [example.test.evil.example]; its URL starts with the base URL, is put
    on the queue, fetched and recorded as valid, though its authority is
    not the seed's. *)
Theorem lookalike_host_is_crawled :
  exists self parsed base_parsed,
    final refused lookalike_site 10 10 = Some self /\
    map (fun l => r_url (fetched l)) (valid_links self) =
      ["https://example.test/"; "https://example.test.evil.example/pixel"] /\
    urlparse (serve refused lookalike_site) "https://example.test.evil.example/pixel" =
      Return parsed /\
    urlparse (serve refused lookalike_site) seed = Return base_parsed /\
    netloc parsed = "example.test.evil.example" /\
    netloc base_parsed = "example.test".
Proof.
  eexists. eexists. eexists. split; [vm_compute; reflexivity |].
  split; [reflexivity |].
  split; [vm_compute; reflexivity |].
  split; [vm_compute; reflexivity |].
  split; reflexivity.
Qed.

(** The scope filter at work on the fresh checker of the seed: another
    host, another scheme, an extension in capitals, a bracket left open. *)
Lemma is_valid_url_rejects_other_authority_witness :
  is_valid_url (serve refused []) (__init__ seed 10 0%float) "https://other.test/x" = false.
Proof.
  refine (is_valid_url_rejects_other_authority (serve refused [])
            (__init__ seed 10 0%float) "https://other.test/x"
            {| scheme := "https"; netloc := "other.test"; path := "/x";
               params := ""; query := ""; fragment := "" |}
            {| scheme := "https"; netloc := "example.test"; path := "";
               params := ""; query := ""; fragment := "" |} _ _ _ _);
    first [discriminate | vm_compute; reflexivity].
Defined.

Lemma is_valid_url_rejects_other_scheme_witness :
  is_valid_url (serve refused []) (__init__ seed 10 0%float) "mailto:team@example.test" = false.
Proof.
  refine (is_valid_url_rejects_other_scheme (serve refused [])
            (__init__ seed 10 0%float) "mailto:team@example.test"
            {| scheme := "mailto"; netloc := ""; path := "team@example.test";
               params := ""; query := ""; fragment := "" |} _ _ _);
    first [discriminate | vm_compute; reflexivity].
Defined.

Lemma is_valid_url_rejects_extension_witness :
  is_valid_url (serve refused []) (__init__ seed 10 0%float)
    "https://example.test/Logo.PNG" = false.
Proof.
  refine (is_valid_url_rejects_extension (serve refused [])
            (__init__ seed 10 0%float) "https://example.test/Logo.PNG" ".png" _ _).
  - simpl. auto.
  - vm_compute. reflexivity.
Defined.

Lemma is_valid_url_rejects_malformed_witness :
  is_valid_url (serve refused []) (__init__ seed 10 0%float) "https://[::1/x" = false.
Proof.
  refine (is_valid_url_rejects_malformed (serve refused [])
            (__init__ seed 10 0%float) "https://[::1/x"
            (ValueError "Invalid IPv6 URL") _).
  vm_compute. reflexivity.
Defined.


(** The requests of a budget of one page: the seed is requested twice. *)
Lemma requests_within_twice_budget_witness :
  exists c,
    crawl_step (serve refused docs_site) (start 1) = (Running, c) /\
    len (session (checker c)) = 2%Z /\
    (len (session (checker c)) - len (session (__init__ seed 1 0%float))
     <= 2 * max_pages (__init__ seed 1 0%float))%Z.
Proof.
  eexists. split; [vm_compute; reflexivity |]. split; [reflexivity |].
  refine (requests_within_twice_budget (serve refused docs_site)
            (__init__ seed 1 0%float) _ _
            (reach_step _ _ (start 1) _ (reach_start _ _) _)).
  - simpl. lia.
  - vm_compute. reflexivity.
Defined.


(** X8 at work: the records after the crawl of the small site. *)
Lemma crawl_keeps_records_well_formed_witness :
  exists c,
    crawl (serve refused docs_site) 5 (__init__ seed 10 0%float) = Some (Return tt, c) /\
    map issue (broken_links (checker c)) = [Some "HTTP 404 error"] /\
    records_ok (checker c).
Proof.
  eexists. split; [vm_compute; reflexivity |]. split; [reflexivity |].
  refine (proj2 (proj2 (crawl_keeps_records_well_formed (serve refused docs_site)
                          (__init__ seed 10 0%float) _ _ (reach_start _ _)))
                5%nat (Return tt) _ _).
  - split; constructor.
  - vm_compute. reflexivity.
Defined.

(** X9 at work: the four URLs of the small site, three valid and one
    broken. *)
Lemma every_visited_url_has_one_record_witness :
  exists c,
    crawl (serve refused docs_site) 5 (__init__ seed 10 0%float) = Some (Return tt, c) /\
    recorded_urls (checker c) =
      ["https://example.test/"; "https://example.test/a"; "https://example.test/b";
       "https://example.test/missing"] /\
    Permutation (recorded_urls (checker c)) (visited (checker c)) /\
    NoDup (recorded_urls (checker c)).
Proof.
  eexists. split; [vm_compute; reflexivity |]. split; [reflexivity |].
  refine (proj2 (every_visited_url_has_one_record (serve refused docs_site)
                   seed 10 0%float _ (reach_start _ _)) 5%nat _ _).
  vm_compute. reflexivity.
Defined.

(** X10 at work: the page [/a] links back to the seed, which is not
    fetched again. *)
Lemma no_url_is_fetched_twice_witness :
  exists c,
    crawl (serve refused docs_site) 5 (__init__ seed 10 0%float) = Some (Return tt, c) /\
    fetched_urls (checker c) =
      ["https://example.test/"; "https://example.test/a"; "https://example.test/b";
       "https://example.test/missing"] /\
    fetched_urls (checker c) = visited (checker c) /\
    NoDup (fetched_urls (checker c)).
Proof.
  eexists. split; [vm_compute; reflexivity |]. split; [reflexivity |].
  refine (proj2 (proj2 (no_url_is_fetched_twice (serve refused docs_site)
                          seed 10 0%float _ (reach_start _ _)))
                5%nat (Return tt) _ _).
  vm_compute. reflexivity.
Defined.





(** X15 at work: a budget of two pages and a queue of four. *)
Lemma crawl_stops_at_budget_or_empty_queue_witness :
  exists c',
    crawl (serve refused docs_site) 5 (queue_of_four 2) = Some (Return tt, c') /\
    to_visit (checker c') = ["https://example.test/a"; "https://example.test/"] /\
    (to_visit (checker c') = [] \/
     (pages_checked c' = Z.max 0 (max_pages (queue_of_four 2)) /\
      (fetch_attempts (checker c') - fetch_attempts (queue_of_four 2))%Z =
        Z.max 0 (max_pages (queue_of_four 2)))).
Proof.
  eexists. split; [vm_compute; reflexivity |]. split; [reflexivity |].
  refine (crawl_stops_at_budget_or_empty_queue (serve refused docs_site)
            (queue_of_four 2) 5%nat _ _).
  vm_compute. reflexivity.
Defined.

(** X16 at work: an attribute in capitals between two different quotes. *)
Lemma finditer_reads_quoted_values_witness :
  finditer href_pattern ("HREF=" ++ String "'" ("/a" ++ String "034" "> <a href='/b'>")) =
    "/a" :: finditer href_pattern "> <a href='/b'>" /\
  finditer href_pattern "> <a href='/b'>" = ["/b"].
Proof.
  split.
  - refine (proj2 (finditer_reads_quoted_values href_pattern)
              "HREF=" "'"%char "/a" "034"%char "> <a href='/b'>" _ _ _ _ _);
      first [discriminate | reflexivity].
  - reflexivity.
Defined.



(** X19 at work: the report of the small site. *)
Lemma main_saves_report_of_complete_crawl_witness :
  exists run report,
    main (serve refused docs_site) desk 5 command_line = Some run /\
    saved run = Some ("report.json", report) /\
    ended run = Returned /\
    total_pages_checked report = 4%Z /\
    total_pages_checked report = total_links_found report.
Proof.
  eexists. eexists. split; [vm_compute; reflexivity |].
  split; [reflexivity |].
  refine ((fun H => conj (proj1 (proj2 (proj2 H)))
                        (conj _ (proj1 (proj2 (proj2 (proj2 (proj2 H)))))))
            (main_saves_report_of_complete_crawl (serve refused docs_site) desk
               command_line 5%nat _ "report.json" _ _ _));
    vm_compute; reflexivity.
Defined.

(** X20 at work: the link to [/b] that the seed put on the queue is visited
    when the crawl of the small site returns. *)
Lemma crawl_drops_no_url_witness :
  let c := snd (crawl_step (serve refused docs_site) (start 10)) in
  In "https://example.test/b" (to_visit (checker c)) /\
  exists c',
    crawl_loop (serve refused docs_site) 4 c = Some (Return tt, c') /\
    to_visit (checker c') = [] /\
    In "https://example.test/b" (visited (checker c')).
Proof.
  intros c.
  assert (Hq : In "https://example.test/b" (to_visit (checker c)))
    by (vm_compute; auto).
  split; [exact Hq |].
  pose proof (proj2 (crawl_drops_no_url (serve refused docs_site) c
                       "https://example.test/b" (in_or_app _ _ _ (or_introl Hq))))
    as H.
  eexists. split; [vm_compute; reflexivity |]. split; [reflexivity |].
  refine (proj2 (H 4%nat (Return tt) _ _) _); [vm_compute; reflexivity | reflexivity].
Defined.

(** X21 at work: the seed is requested a second time, the missing page is
    not. *)
Lemma links_are_read_from_html_pages_only_witness :
  exists c,
    crawl (serve refused docs_site) 5 (__init__ seed 10 0%float) = Some (Return tt, c) /\
    In {| req_site := InCrawl; req_url := seed |} (session (checker c)) /\
    ~ In {| req_site := InCrawl; req_url := "https://example.test/missing" |}
         (session (checker c)) /\
    extraction_requests_ok (checker c).
Proof.
  eexists. split; [vm_compute; reflexivity |].
  split; [simpl; auto |]. split.
  - simpl. intros H. repeat (destruct H as [H | H]; [discriminate |]). exact H.
  - refine (proj2 (proj2 (links_are_read_from_html_pages_only (serve refused docs_site)
                            seed 10 0%float _ (reach_start _ _)))
                  5%nat (Return tt) _ _).
    vm_compute. reflexivity.
Defined.

